(** * compressed-tensors: safetensors name grouping and location resolution

    A shallow embedding of
    [src/compressed_tensors/utils/safetensors_load.py] and of
    [src/compressed_tensors/compressors/sparse_compressors/dense.py],
    followed by the properties of the specification that concern them.

    Python values are modelled as follows.
    - [str] is [string]; a character is an [ascii] code.
    - [dict] is an association list in insertion order with unique keys
      ([dict_wf]); [d[k] = v] keeps the position of an existing key and
      appends a new one.
    - An exception is a value of [exn]; a computation that may raise
      returns a [result].
    - The file system is a finite view [path -> option node]. *)

From Stdlib Require Import Strings.String Strings.Ascii Strings.Byte.
From Stdlib Require Import Lists.List Sorting.Permutation.
From Stdlib Require Import Arith.Arith NArith.NArith Bool.Bool micromega.Lia.
Import ListNotations.

Local Open Scope list_scope.
Local Open Scope string_scope.
Local Open Scope nat_scope.

Set Implicit Arguments.

(** ** Exceptions and results *)

Inductive exn : Type :=
| ReError (msg : string)          (* re.error, raised when a pattern does not compile *)
| StructError                     (* struct.error *)
| JSONDecodeError                 (* json.JSONDecodeError, UnicodeDecodeError *)
| ValueError (msg : string)
| KeyError (key : string)
| TypeError
| AttributeError
| FileNotFoundError
| IsADirectoryError
| OverflowError                   (* a size that does not fit Py_ssize_t *)
| MemoryError.                    (* a size that cannot be allocated *)

(** [Beyond] marks a regular expression that uses syntax outside the
    fragment of Python's [re] that is modelled below; nothing is stated
    about such runs. *)
Inductive result (A : Type) : Type :=
| Ok (a : A)
| Raise (e : exn)
| Beyond.

Arguments Ok {A} a.
Arguments Raise {A} e.
Arguments Beyond {A}.

Definition bind {A B : Type} (m : result A) (f : A -> result B) : result B :=
  match m with
  | Ok a => f a
  | Raise e => Raise e
  | Beyond => Beyond
  end.

Notation "x <- m ;; k" := (bind m (fun x => k))
  (at level 61, m at next level, right associativity).
Notation "' p <- m ;; k" := (bind m (fun p => k))
  (at level 61, p pattern, m at next level, right associativity).

(** ** Strings *)

Fixpoint string_drop (n : nat) (s : string) : string :=
  match n, s with
  | S n', String _ s' => string_drop n' s'
  | _, _ => s
  end.

Fixpoint string_take (n : nat) (s : string) : string :=
  match n, s with
  | S n', String c s' => String c (string_take n' s')
  | _, _ => EmptyString
  end.

Definition newline : ascii := "010"%char.

(** ** The fragment of Python's [re] used by [match_param_name]

    Modelled from the Python standard library ([re], [sre_parse]): literal
    characters, [.], [\c] for a non-alphanumeric [c], [^], [$], the greedy
    quantifiers [*], [+], [?] on a one-character atom, capturing groups
    and [|]. No flag is set, so [.] excludes the newline, [^] holds at
    offset 0 only and [$] holds at the end or before a final newline. *)

Inductive atom : Type :=
| AChr (c : ascii)
| AAny.

Inductive quant : Type := QOne | QStar | QPlus | QOpt.

Inductive re : Type :=
| REps
| RAtom (a : atom) (q : quant)
| RBol
| REol
| RCat (r1 r2 : re)
| RAlt (r1 r2 : re)
| RGroup (n : nat) (r : re).

(** *** Parsing a pattern *)

Definition is_digit (c : ascii) : bool :=
  let n := nat_of_ascii c in (48 <=? n) && (n <=? 57).
Definition is_letter (c : ascii) : bool :=
  let n := nat_of_ascii c in
  ((65 <=? n) && (n <=? 90)) || ((97 <=? n) && (n <=? 122)).
Definition is_alnum (c : ascii) : bool := is_digit c || is_letter c.

(** Characters with a special meaning for the pattern parser. *)
Definition is_meta (c : ascii) : bool :=
  match c with
  | "."%char | "^"%char | "$"%char | "*"%char | "+"%char | "?"%char
  | "{"%char | "["%char | "\"%char | "|"%char | "("%char | ")"%char => true
  | _ => false
  end.

Definition seq_re (items_rev : list re) : re :=
  fold_left (fun acc r => RCat r acc) items_rev REps.

Definition alt_re (alts_rev : list re) (last : re) : re :=
  fold_left (fun acc r => RAlt r acc) alts_rev last.

(** Parser state: the alternatives already closed and the items of the
    current alternative (both latest first), the enclosing open groups and
    the number of groups opened so far. *)
Record pstate : Type := mkP {
  p_alts : list re;
  p_seq : list re;
  p_stack : list (list re * list re * nat);
  p_groups : nat
}.

Definition p_init : pstate := mkP [] [] [] 0.

Definition p_push (r : re) (st : pstate) : pstate :=
  mkP (p_alts st) (r :: p_seq st) (p_stack st) (p_groups st).

Definition p_close (st : pstate) : re :=
  alt_re (p_alts st) (seq_re (p_seq st)).

Definition quant_of (c : ascii) : quant :=
  match c with
  | "*"%char => QStar
  | "+"%char => QPlus
  | _ => QOpt
  end.

Definition p_repeat (c : ascii) (st : pstate) : result pstate :=
  match p_seq st with
  | [] => Raise (ReError "nothing to repeat")
  | RAtom a QOne :: rest =>
      Ok (mkP (p_alts st) (RAtom a (quant_of c) :: rest) (p_stack st) (p_groups st))
  | RAtom _ _ :: _ =>
      (* [x**] is an error; [x*?] is lazy and [x*+] possessive *)
      if Ascii.eqb c "*" then Raise (ReError "multiple repeat") else Beyond
  | RBol :: _ | REol :: _ => Raise (ReError "nothing to repeat")
  | _ => Beyond
  end.

Fixpoint parse (p : string) (st : pstate) : result (re * nat) :=
  match p with
  | EmptyString =>
      match p_stack st with
      | [] => Ok (p_close st, p_groups st)
      | _ => Raise (ReError "missing ), unterminated subpattern")
      end
  | String c p' =>
      match c with
      | "\"%char =>
          match p' with
          | EmptyString => Raise (ReError "bad escape (end of pattern)")
          | String d p'' =>
              if is_alnum d then Beyond
              else parse p'' (p_push (RAtom (AChr d) QOne) st)
          end
      | "("%char =>
          match p' with
          | String "?"%char _ => Beyond
          | _ =>
              let n := S (p_groups st) in
              parse p' (mkP [] [] ((p_alts st, p_seq st, n) :: p_stack st) n)
          end
      | ")"%char =>
          match p_stack st with
          | [] => Raise (ReError "unbalanced parenthesis")
          | (alts, items, n) :: stk =>
              parse p' (mkP alts (RGroup n (p_close st) :: items) stk (p_groups st))
          end
      | "|"%char =>
          parse p' (mkP (seq_re (p_seq st) :: p_alts st) [] (p_stack st) (p_groups st))
      | "*"%char | "+"%char | "?"%char =>
          st' <- p_repeat c st ;; parse p' st'
      | "["%char | "{"%char => Beyond
      | "."%char => parse p' (p_push (RAtom AAny QOne) st)
      | "^"%char => parse p' (p_push RBol st)
      | "$"%char => parse p' (p_push REol st)
      | _ => parse p' (p_push (RAtom (AChr c) QOne) st)
      end
  end.

Definition re_compile (pattern : string) : result (re * nat) :=
  parse pattern p_init.

(** *** Matching by backtracking *)

Definition atom_ok (a : atom) (c : ascii) : bool :=
  match a with
  | AChr x => Ascii.eqb x c
  | AAny => negb (Ascii.eqb c newline)
  end.

(** Length of the longest run of characters accepted by [a]. *)
Fixpoint run (a : atom) (s : string) : nat :=
  match s with
  | String c s' => if atom_ok a c then S (run a s') else 0
  | EmptyString => 0
  end.

Definition captures : Type := list (nat * string).

Fixpoint capture (n : nat) (c : captures) : option string :=
  match c with
  | [] => None
  | (m, s) :: c' => if Nat.eqb n m then Some s else capture n c'
  end.

Section Matcher.
Variable R : Type.

(** Greedy repetition: try [lo + d] characters, then one less, down to
    [lo]. *)
Fixpoint backoff (lo d : nat) (s : string) (k : string -> option R) : option R :=
  match k (string_drop (lo + d) s) with
  | Some r => Some r
  | None =>
      match d with
      | 0 => None
      | S d' => backoff lo d' s k
      end
  end.

Definition match_atom (a : atom) (q : quant) (s : string)
    (k : string -> option R) : option R :=
  let m := run a s in
  match q with
  | QOne => match m with 0 => None | S _ => k (string_drop 1 s) end
  | QStar => backoff 0 m s k
  | QPlus => match m with 0 => None | S m' => backoff 1 m' s k end
  | QOpt => backoff 0 (Nat.min 1 m) s k
  end.

(** [full] is the whole subject string and [s] the part not yet
    consumed. *)
Fixpoint match_re (full : string) (r : re) (s : string) (c : captures)
    (k : string -> captures -> option R) : option R :=
  match r with
  | REps => k s c
  | RAtom a q => match_atom a q s (fun s' => k s' c)
  | RBol => if Nat.eqb (String.length s) (String.length full) then k s c else None
  | REol =>
      match s with
      | EmptyString => k s c
      | String x EmptyString => if Ascii.eqb x newline then k s c else None
      | _ => None
      end
  | RCat r1 r2 =>
      match_re full r1 s c (fun s' c' => match_re full r2 s' c' k)
  | RAlt r1 r2 =>
      match match_re full r1 s c k with
      | Some x => Some x
      | None => match_re full r2 s c k
      end
  | RGroup n r1 =>
      match_re full r1 s c
        (fun s' c' => k s' ((n, string_take (String.length s - String.length s') s) :: c'))
  end.
End Matcher.

(** [re.search]: the leftmost start offset at which the pattern matches. *)
Fixpoint search_from (full : string) (r : re) (s : string) : option captures :=
  match match_re full r s [] (fun _ c => Some c) with
  | Some c => Some c
  | None =>
      match s with
      | EmptyString => None
      | String _ s' => search_from full r s'
      end
  end.

(** What [re.findall] puts in its list for one match: the text of the only
    group, or the tuple of all groups; a group that took no part in the
    match gives the empty string. *)
Inductive pyval : Type :=
| PStr (s : string)
| PTuple (l : list string).

Definition group_text (c : captures) (n : nat) : string :=
  match capture n c with
  | Some s => s
  | None => EmptyString
  end.

Definition findall_item (groups : nat) (c : captures) : pyval :=
  match groups with
  | 0 => PStr (group_text c 0)
  | 1 => PStr (group_text c 1)
  | _ => PTuple (map (group_text c) (seq 1 groups))
  end.

(** The first element of [re.findall(pattern, s)], or [None] when the list
    is empty. The caller looks at nothing else of the list. *)
Definition re_findall_first (pattern s : string) : result (option pyval) :=
  '(r, groups) <- re_compile pattern ;;
  Ok (option_map (findall_item groups) (search_from s (RGroup 0 r) s)).

(** ** [match_param_name] and [merge_names] *)

Definition match_param_name (full_name param_name : string)
    : result (option pyval) :=
  let pattern := "^(.*)\." ++ param_name ++ "$" in
  re_findall_first pattern full_name.

Definition merge_names (parent_name child_name : string) : string :=
  parent_name ++ "." ++ child_name.

(** [name.endswith(suffix)] *)
Definition ends_with (name suffix : string) : bool :=
  let n := String.length name - String.length suffix in
  (String.length suffix <=? String.length name) &&
  String.eqb (string_drop n name) suffix.

Definition is_quantization_param (name : string) : bool :=
  if ends_with name "_scale" then true
  else if ends_with name "zero_point" then true
  else if ends_with name "g_idx" then true
  else false.

(** ** Python dictionaries *)

Abbreviation dict K V := (list (K * V)).

Section Dict.
Variables K V : Type.
Variable K_dec : forall x y : K, {x = y} + {x <> y}.

Definition dict_keys (d : dict K V) : list K := map fst d.

(** Keys of a dictionary are pairwise distinct. *)
Definition dict_wf (d : dict K V) : Prop := NoDup (dict_keys d).

Fixpoint dict_get (k : K) (d : dict K V) : option V :=
  match d with
  | [] => None
  | (k', v) :: d' => if K_dec k k' then Some v else dict_get k d'
  end.

Definition dict_mem (k : K) (d : dict K V) : bool :=
  match dict_get k d with
  | Some _ => true
  | None => false
  end.

(** [d[k] = v] *)
Fixpoint dict_set (k : K) (v : V) (d : dict K V) : dict K V :=
  match d with
  | [] => [(k, v)]
  | (k', v') :: d' =>
      if K_dec k k' then (k', v) :: d' else (k', v') :: dict_set k v d'
  end.

(** [d.pop(k, None)], the popped value dropped *)
Fixpoint dict_pop (k : K) (d : dict K V) : dict K V :=
  match d with
  | [] => []
  | (k', v') :: d' =>
      if K_dec k k' then d' else (k', v') :: dict_pop k d'
  end.

(** [dict(pairs)] *)
Definition dict_of_pairs (pairs : list (K * V)) : dict K V :=
  fold_left (fun d kv => dict_set (fst kv) (snd kv) d) pairs [].
End Dict.

Definition pyval_dec (x y : pyval) : {x = y} + {x <> y}.
Proof.
  decide equality.
  - apply string_dec.
  - apply (list_eq_dec string_dec).
Defined.

(** ** Grouping names by suffix *)

(** Truth value of what [match_param_name] returns: [None] and the empty
    string are false. *)
Definition truthy (m : option pyval) : bool :=
  match m with
  | None => false
  | Some (PStr EmptyString) => false
  | Some (PStr _) => true
  | Some (PTuple []) => false
  | Some (PTuple _) => true
  end.

Abbreviation inner_mapping V := (dict string V).
Abbreviation nested_mapping V := (dict pyval (dict string V)).

(** [params_to_nest] is a collection that each key iterates afresh (a
    list or a tuple), modelled by a list. *)
Section Grouping.
Variable V : Type.


(** What the grouping functions return: the nested mapping alone, or
    the pair with the unmatched parameters. *)
Inductive grouped : Type :=
| NestedOnly (nested : nested_mapping V)
| NestedAndUnmatched (nested : nested_mapping V) (unmatched : dict string V).

(** The three statements under [if module_path:]. *)
Definition nested_store (module_path : pyval) (param_name : string)
    (value : V) (nested : nested_mapping V) : nested_mapping V :=
  let nested1 :=
    if dict_mem pyval_dec module_path nested then nested
    else dict_set pyval_dec module_path [] nested in
  match dict_get pyval_dec module_path nested1 with
  | Some inner =>
      dict_set pyval_dec module_path
        (dict_set string_dec param_name value inner) nested1
  | None => nested1
  end.

(** The loop [for param_name in params_to_nest] for one key. *)
Fixpoint nest_params (key : string) (value : V) (params_to_nest : list string)
    (nested : nested_mapping V) (matched : bool)
    : result (nested_mapping V * bool) :=
  match params_to_nest with
  | [] => Ok (nested, matched)
  | param_name :: rest =>
      module_path <- match_param_name key param_name ;;
      if truthy module_path then
        match module_path with
        | Some mp =>
            nest_params key value rest
              (nested_store mp param_name value nested) true
        | None => nest_params key value rest nested matched
        end
      else nest_params key value rest nested matched
  end.

(** One turn of the outer loop, the value of the key already at hand. *)
Definition nest_entry (params_to_nest : list string)
    (return_unmatched_params : bool) (key : string) (value : V)
    (acc : nested_mapping V * dict string V)
    : result (nested_mapping V * dict string V) :=
  '(nested, matched) <- nest_params key value params_to_nest (fst acc) false ;;
  if return_unmatched_params && negb matched
  then Ok (nested, dict_set string_dec key value (snd acc))
  else Ok (nested, snd acc).

(** [for key, file_location in weight_mappings.items()] *)
Fixpoint nest_items (params_to_nest : list string)
    (return_unmatched_params : bool) (items : list (string * V))
    (acc : nested_mapping V * dict string V)
    : result (nested_mapping V * dict string V) :=
  match items with
  | [] => Ok acc
  | (key, value) :: rest =>
      acc' <- nest_entry params_to_nest return_unmatched_params key value acc ;;
      nest_items params_to_nest return_unmatched_params rest acc'
  end.

(** [for key in state_dict.keys()], reading [state_dict[key]] *)
Fixpoint nest_keys (state_dict : dict string V) (params_to_nest : list string)
    (return_unmatched_params : bool) (keys : list string)
    (acc : nested_mapping V * dict string V)
    : result (nested_mapping V * dict string V) :=
  match keys with
  | [] => Ok acc
  | key :: rest =>
      match dict_get string_dec key state_dict with
      | None => Raise (KeyError key)
      | Some value =>
          acc' <- nest_entry params_to_nest return_unmatched_params key value acc ;;
          nest_keys state_dict params_to_nest return_unmatched_params rest acc'
      end
  end.

Definition grouped_of (return_unmatched_params : bool)
    (acc : nested_mapping V * dict string V) : grouped :=
  if return_unmatched_params
  then NestedAndUnmatched (fst acc) (snd acc)
  else NestedOnly (fst acc).

Definition get_nested_mappings_from_state_dict (state_dict : dict string V)
    (params_to_nest : list string) (return_unmatched_params : bool)
    : result grouped :=
  acc <- nest_keys state_dict params_to_nest return_unmatched_params
           (dict_keys state_dict) ([], []) ;;
  Ok (grouped_of return_unmatched_params acc).
End Grouping.

(** ** Files, headers and weight locations *)

Inductive node : Type :=
| File (content : list byte)
| Dir.

Definition filesystem : Type := string -> option node.

Definition os_path_isfile (fs : filesystem) (p : string) : bool :=
  match fs p with
  | Some (File _) => true
  | _ => false
  end.

Definition os_path_exists (fs : filesystem) (p : string) : bool :=
  match fs p with
  | Some _ => true
  | None => false
  end.

Fixpoint ends_with_sep (s : string) : bool :=
  match s with
  | EmptyString => false
  | String c EmptyString => Ascii.eqb c "/"
  | String _ s' => ends_with_sep s'
  end.

(** [os.path.join] of two components (posixpath) *)
Definition os_path_join (a b : string) : string :=
  match b with
  | String "/"%char _ => b
  | _ =>
      match a with
      | EmptyString => b
      | _ => if ends_with_sep a then a ++ b else a ++ "/" ++ b
      end
  end.

(** [open(path, ...)] followed by reading: the bytes of the file *)
Definition open_file (fs : filesystem) (p : string) : result (list byte) :=
  match fs p with
  | Some (File content) => Ok content
  | Some Dir => Raise IsADirectoryError
  | None => Raise FileNotFoundError
  end.

Definition le_bytes_to_N (bs : list byte) : N :=
  fold_right (fun b acc => (Byte.to_N b + 256 * acc)%N) 0%N bs.

(** [struct.unpack("<Q", data)[0]] *)
Definition struct_unpack_Q (data : list byte) : result N :=
  if Nat.eqb (length data) 8 then Ok (le_bytes_to_N data)
  else Raise StructError.

#[local] Set Warnings "-register-all".

Inductive json : Type :=
| JNull
| JBool (b : bool)
| JNum (lexeme : string)
| JStr (s : string)
| JArr (items : list json)
| JObj (members : list (string * json)).

(** The decoder turns the members of every object into a [dict]: a
    repeated name keeps its first position and its last value. *)
Fixpoint dictify (j : json) : json :=
  match j with
  | JArr items => JArr (map dictify items)
  | JObj members =>
      JObj (dict_of_pairs string_dec
              (map (fun kv => let '(k, v) := kv in (k, dictify v)) members))
  | _ => j
  end.

Definition as_dict (j : json) : result (dict string json) :=
  match j with
  | JObj d => Ok d
  | _ => Raise AttributeError
  end.

(** [j[key]] for a string [key] *)
Definition getitem (j : json) (key : string) : result json :=
  match j with
  | JObj d =>
      match dict_get string_dec key d with
      | Some v => Ok v
      | None => Raise (KeyError key)
      end
  | _ => Raise TypeError
  end.

(** The limits of the interpreter on the size of one read: a size beyond
    [PY_SSIZE_T_MAX] (2^63 - 1 where CPython has 64 bits) does not fit the
    argument and raises [OverflowError]; a size beyond [alloc_limit], what
    the interpreter can allocate for the result, raises [MemoryError]. *)
Record interpreter : Type := mkInterpreter {
  PY_SSIZE_T_MAX : N;
  alloc_limit : N
}.

Definition read_refusal (py : interpreter) (n : N) : option exn :=
  if (PY_SSIZE_T_MAX py <? n)%N then Some OverflowError
  else if (alloc_limit py <? n)%N then Some MemoryError
  else None.

(** [f.read(n)] on the bytes that remain in the file: the bytes that are
    there, up to [n], when the interpreter grants a read of that size. *)
Definition file_read (py : interpreter) (n : N) (rest : list byte)
    : result (list byte) :=
  match read_refusal py n with
  | Some e => Raise e
  | None => Ok (firstn (N.to_nat n) rest)
  end.

Section Loader.
Variable py : interpreter.

(** The grammar of JSON belongs to Python's [json] module: what it reads
    from bytes ([json.loads]) and from a file opened as UTF-8 text
    ([json.load]), objects given as their members in document order,
    [None] standing for a decoding error. *)
Variable json_scan_bytes : list byte -> option json.
Variable json_scan_text : list byte -> option json.

(** The file names of [transformers.utils]. *)
Variable SAFE_WEIGHTS_NAME : string.
Variable SAFE_WEIGHTS_INDEX_NAME : string.

Definition json_loads (data : list byte) : result json :=
  match json_scan_bytes data with
  | Some j => Ok (dictify j)
  | None => Raise JSONDecodeError
  end.

Definition json_load (content : list byte) : result json :=
  match json_scan_text content with
  | Some j => Ok (dictify j)
  | None => Raise JSONDecodeError
  end.

(** The read of the 8 bytes of the length is always granted; the read of
    the header is [file_read]. *)
Definition get_safetensors_header (fs : filesystem) (safetensors_path : string)
    : result json :=
  content <- open_file fs safetensors_path ;;
  length_of_header <- struct_unpack_Q (firstn 8 content) ;;
  header_data <- file_read py length_of_header (skipn 8 content) ;;
  json_loads header_data.

(** [for key in header.keys(): header[key] = location] *)
Definition set_all (location : string) (header : dict string json)
    : dict string json :=
  fold_left (fun h key => dict_set string_dec key (JStr location) h)
    (dict_keys header) header.

(** [for key, value in header.items():
       header[key] = os.path.join(path, value)] *)
Fixpoint join_all (path : string) (items : list (string * json))
    (header : dict string json) : result (dict string json) :=
  match items with
  | [] => Ok header
  | (key, value) :: rest =>
      match value with
      | JStr v =>
          join_all path rest
            (dict_set string_dec key (JStr (os_path_join path v)) header)
      | _ => Raise TypeError
      end
  end.

Definition get_weight_mappings (fs : filesystem)
    (path_to_model_or_tensors : string) : result (dict string json) :=
  if os_path_isfile fs path_to_model_or_tensors then
    header <- get_safetensors_header fs path_to_model_or_tensors ;;
    header <- as_dict header ;;
    let header := set_all path_to_model_or_tensors header in
    Ok (dict_pop string_dec "__metadata__" header)
  else
    let safetensors_path :=
      os_path_join path_to_model_or_tensors SAFE_WEIGHTS_NAME in
    let index_path :=
      os_path_join path_to_model_or_tensors SAFE_WEIGHTS_INDEX_NAME in
    header <-
      (if os_path_exists fs safetensors_path then
         header <- get_safetensors_header fs safetensors_path ;;
         header <- as_dict header ;;
         let header := set_all SAFE_WEIGHTS_NAME header in
         Ok (dict_pop string_dec "__metadata__" header)
       else if os_path_exists fs index_path then
         content <- open_file fs index_path ;;
         index <- json_load content ;;
         header <- getitem index "weight_map" ;;
         as_dict header
       else
         Raise (ValueError
                  ("Could not find a safetensors weight or index file at "
                   ++ path_to_model_or_tensors))) ;;
    join_all path_to_model_or_tensors header header.


Definition get_quantization_parameter_to_path_mapping (fs : filesystem)
    (model_path : string) : result (dict string json) :=
  weight_mappings <- get_weight_mappings fs model_path ;;
  Ok (fold_left
        (fun mapping entry =>
           let '(weight_name, safe_path) := entry in
           if is_quantization_param weight_name
           then dict_set string_dec weight_name safe_path mapping
           else mapping)
        weight_mappings []).
End Loader.

(** ** Locating the folder of a model *)

Fixpoint has_sep (s : string) : bool :=
  match s with
  | EmptyString => false
  | String c s' => Ascii.eqb c "/" || has_sep s'
  end.

(** [p[:i], p[i:]] for [i = p.rfind("/") + 1] *)
Fixpoint split_at_last_sep (p : string) : string * string :=
  match p with
  | EmptyString => (EmptyString, EmptyString)
  | String c p' =>
      if has_sep p' then
        let '(head, tail) := split_at_last_sep p' in (String c head, tail)
      else if Ascii.eqb c "/" then (String c EmptyString, p')
      else (EmptyString, String c p')
  end.

(** [s == "/" * len(s)] *)
Fixpoint all_sep (s : string) : bool :=
  match s with
  | EmptyString => true
  | String c s' => Ascii.eqb c "/" && all_sep s'
  end.

(** [s.rstrip("/")] *)
Fixpoint rstrip_sep (s : string) : string :=
  match s with
  | EmptyString => EmptyString
  | String c s' =>
      match rstrip_sep s' with
      | EmptyString => if Ascii.eqb c "/" then EmptyString else String c EmptyString
      | r => String c r
      end
  end.

(** [os.path.split] (posixpath) *)
Definition os_path_split (p : string) : string * string :=
  let '(head, tail) := split_at_last_sep p in
  match head with
  | EmptyString => (head, tail)
  | _ => if all_sep head then (head, tail) else (rstrip_sep head, tail)
  end.

Section Folder.
(** [cached_file(name, filename, cache_dir=cache_dir,
    _raise_exceptions_for_missing_entries=False)] of [transformers]: the
    path of the cached file, [None] when there is no such entry, or an
    exception. *)
Variable cached_file : string -> string -> option string -> result (option string).

(** [os.path.abspath], which depends on the working directory. *)
Variable os_path_abspath : string -> string.

Variable SAFE_WEIGHTS_NAME : string.
Variable SAFE_WEIGHTS_INDEX_NAME : string.

Definition get_safetensors_folder (fs : filesystem)
    (pretrained_model_name_or_path : string) (cache_dir : option string)
    : result string :=
  if os_path_exists fs pretrained_model_name_or_path then
    Ok (os_path_abspath pretrained_model_name_or_path)
  else
    safetensors_path <-
      cached_file pretrained_model_name_or_path SAFE_WEIGHTS_NAME cache_dir ;;
    index_path <-
      cached_file pretrained_model_name_or_path SAFE_WEIGHTS_INDEX_NAME cache_dir ;;
    match safetensors_path with
    | Some found => Ok (fst (os_path_split found))
    | None =>
        match index_path with
        | Some found => Ok (fst (os_path_split found))
        | None =>
            Raise (ValueError
                     ("Could not locate safetensors weight or index file from "
                      ++ pretrained_model_name_or_path ++ "."))
        end
    end.
End Folder.

(** ** The dense compressor *)

Module DenseCompressor.
Section Dense.
Variable Tensor : Type.

Definition compression_param_names : list string := [].

Definition compress (model_state : dict string Tensor) : dict string Tensor :=
  model_state.

(** The generators are modelled by the list of what they yield. *)
Definition decompress (path_to_model_or_tensors device : string)
    : list (string * Tensor) := [].

Definition decompress_from_state_dict (state_dict : dict string Tensor)
    : list (string * Tensor) :=
  map (fun kv => (fst kv, snd kv)) state_dict.
End Dense.
End DenseCompressor.

(** * Properties *)

Unset Implicit Arguments.

(** ** Strings *)

Lemma append_assoc (a b c : string) : (a ++ b) ++ c = a ++ (b ++ c).
Proof. induction a as [|x a IH]; simpl; [reflexivity | now rewrite IH]. Qed.

Lemma append_empty_r (a : string) : a ++ "" = a.
Proof. induction a as [|x a IH]; simpl; [reflexivity | now rewrite IH]. Qed.

Lemma length_append (a b : string) :
  String.length (a ++ b) = String.length a + String.length b.
Proof. induction a as [|x a IH]; simpl; [reflexivity | now rewrite IH]. Qed.

Lemma string_drop_0 (s : string) : string_drop 0 s = s.
Proof. destruct s; reflexivity. Qed.

Lemma string_drop_append (a b : string) :
  string_drop (String.length a) (a ++ b) = b.
Proof. induction a as [|x a IH]; simpl; [apply string_drop_0 | exact IH]. Qed.

Lemma string_take_append (a b : string) :
  string_take (String.length a) (a ++ b) = a.
Proof.
  induction a as [|x a IH]; simpl; [destruct b; reflexivity | now rewrite IH].
Qed.

Lemma take_drop (n : nat) (s : string) : string_take n s ++ string_drop n s = s.
Proof.
  revert s; induction n as [|n IH]; intros [|x s]; simpl; try reflexivity.
  now rewrite IH.
Qed.

Lemma length_drop (n : nat) (s : string) :
  String.length (string_drop n s) = String.length s - n.
Proof.
  revert s; induction n as [|n IH]; intros [|x s]; simpl; try reflexivity.
  apply IH.
Qed.

Lemma length_take (n : nat) (s : string) :
  String.length (string_take n s) = Nat.min n (String.length s).
Proof.
  revert s; induction n as [|n IH]; intros [|x s]; simpl; try reflexivity.
  now rewrite IH.
Qed.

Lemma append_inv_length (a b c d : string) :
  a ++ b = c ++ d -> String.length a = String.length c -> a = c /\ b = d.
Proof.
  revert c; induction a as [|x a IH]; intros [|y c]; simpl; intros H L;
    try discriminate.
  - now split.
  - injection H as -> H. injection L as L.
    destruct (IH _ H L) as [-> ->]. now split.
Qed.

(** ** The pattern of a suffix without special characters *)

Fixpoint plain (s : string) : bool :=
  match s with
  | EmptyString => true
  | String c s' => negb (is_meta c) && plain s'
  end.

Fixpoint no_newline (s : string) : bool :=
  match s with
  | EmptyString => true
  | String c s' => negb (Ascii.eqb c newline) && no_newline s'
  end.

Fixpoint no_dot (s : string) : bool :=
  match s with
  | EmptyString => true
  | String c s' => negb (Ascii.eqb c ".") && no_dot s'
  end.

Definition chr (c : ascii) : re := RAtom (AChr c) QOne.

Fixpoint chars (s : string) : list re :=
  match s with
  | EmptyString => []
  | String c s' => chr c :: chars s'
  end.

(** What the pattern built by [match_param_name] compiles to when the
    suffix [s] has no special character. *)
Definition suffix_re (s : string) : re :=
  RCat RBol
    (RCat (RGroup 1 (RCat (RAtom AAny QStar) REps))
       (RCat (chr ".") (fold_right RCat REps (chars s ++ [REol])))).

Lemma parse_plain_char (c : ascii) (p : string) (st : pstate) :
  is_meta c = false ->
  parse (String c p) st = parse p (p_push (chr c) st).
Proof.
  destruct c as [[] [] [] [] [] [] [] []]; intros H;
    try discriminate H; reflexivity.
Qed.

Lemma parse_plain (s rest : string) (st : pstate) :
  plain s = true ->
  parse (s ++ rest) st =
  parse rest (mkP (p_alts st) (rev (chars s) ++ p_seq st) (p_stack st) (p_groups st)).
Proof.
  revert st; induction s as [|c s IH]; intros st H.
  - destruct st; reflexivity.
  - simpl in H. apply andb_prop in H as [Hc Hs].
    apply negb_true_iff in Hc.
    change (String c s ++ rest) with (String c (s ++ rest)).
    rewrite (parse_plain_char _ _ _ Hc), (IH _ Hs). simpl.
    now rewrite <- app_assoc.
Qed.

Lemma seq_re_rev (l : list re) : seq_re (rev l) = fold_right RCat REps l.
Proof.
  unfold seq_re. rewrite <- (rev_involutive l) at 2.
  now rewrite fold_left_rev_right.
Qed.

Definition after_prefix : pstate :=
  mkP [] [chr "."; RGroup 1 (RCat (RAtom AAny QStar) REps); RBol] [] 1.

Lemma parse_prefix (p : string) :
  parse ("^(.*)\." ++ p) p_init = parse p after_prefix.
Proof. reflexivity. Qed.

Lemma re_compile_plain (s : string) :
  plain s = true ->
  re_compile ("^(.*)\." ++ s ++ "$") = Ok (suffix_re s, 1).
Proof.
  intros H. unfold re_compile.
  rewrite parse_prefix, (parse_plain _ _ _ H).
  unfold after_prefix, suffix_re; simpl.
  unfold p_close, alt_re, p_push; simpl. do 2 f_equal.
  change (REol :: (rev (chars s) ++ [chr "."; RGroup 1 (RCat (RAtom AAny QStar) REps); RBol])%list)
    with (rev [REol] ++ (rev (chars s) ++ rev [RBol; RGroup 1 (RCat (RAtom AAny QStar) REps); chr "."]))%list.
  rewrite <- !rev_app_distr, seq_re_rev. simpl.
  reflexivity.
Qed.

(** ** Matching the pattern of a plain suffix *)

Fixpoint strip_prefix (p s : string) : option string :=
  match p with
  | EmptyString => Some s
  | String c p' =>
      match s with
      | String d s' => if Ascii.eqb c d then strip_prefix p' s' else None
      | EmptyString => None
      end
  end.

(** Where [$] holds: at the end, or before a final newline. *)
Definition at_end (s : string) : bool :=
  match s with
  | EmptyString => true
  | String x EmptyString => Ascii.eqb x newline
  | _ => false
  end.

Definition tail_matches (p rest : string) : bool :=
  match strip_prefix (String "." p) rest with
  | Some t => at_end t
  | None => false
  end.

(** The entity found for a plain suffix: the longest prefix of at most [n]
    characters that is followed by the dot, the suffix and the end. *)
Fixpoint longest_split (p full : string) (n : nat) : option string :=
  if tail_matches p (string_drop n full) then Some (string_take n full)
  else
    match n with
    | 0 => None
    | S n' => longest_split p full n'
    end.

Lemma strip_prefix_spec (p s t : string) :
  strip_prefix p s = Some t <-> s = p ++ t.
Proof.
  revert s; induction p as [|c p IH]; intros s; simpl.
  - split; [now intros [= ->] | now intros ->].
  - destruct s as [|d s].
    + split; discriminate.
    + destruct (Ascii.eqb_spec c d) as [->|Hn].
      * rewrite IH. split; [now intros -> | now intros [= ->]].
      * split; [discriminate | intros [= E _]; now elim Hn].
Qed.

Lemma match_chars (R : Type) (full p rest : string) (c : captures)
    (k : string -> captures -> option R) :
  match_re full (fold_right RCat REps (chars p ++ [REol])) rest c k =
  match strip_prefix p rest with
  | Some t => if at_end t then k t c else None
  | None => None
  end.
Proof.
  revert rest; induction p as [|x p IH]; intros rest; simpl.
  - destruct rest as [|y [|z rest]]; simpl; reflexivity.
  - unfold match_atom. destruct rest as [|d rest]; simpl; [reflexivity|].
    destruct (Ascii.eqb x d); [apply IH | reflexivity].
Qed.

Lemma backoff_first (R : Type) (lo d : nat) (s : string)
    (k : string -> option R) (r : R) :
  backoff lo d s k = Some r ->
  exists n, lo <= n <= lo + d /\ k (string_drop n s) = Some r.
Proof.
  induction d as [|d IH]; simpl.
  - destruct (k (string_drop (lo + 0) s)) eqn:E; [|discriminate].
    intros [= ->]. exists (lo + 0). split; [lia | exact E].
  - destruct (k (string_drop (lo + S d) s)) eqn:E.
    + intros [= ->]. exists (lo + S d). split; [lia | exact E].
    + intros H. destruct (IH H) as (n & Hn & Hk). exists n. split; [lia | exact Hk].
Qed.

Lemma backoff_ext (R : Type) (lo d : nat) (s : string)
    (k1 k2 : string -> option R) :
  (forall t, k1 t = k2 t) -> backoff lo d s k1 = backoff lo d s k2.
Proof.
  intros E; induction d as [|d IH]; simpl; rewrite E; [reflexivity|].
  now rewrite IH.
Qed.

Lemma run_le_length (a : atom) (s : string) : run a s <= String.length s.
Proof.
  induction s as [|c s IH]; simpl; [lia|]. destruct (atom_ok a c); lia.
Qed.

Lemma run_any_take (s : string) (n : nat) :
  n <= run AAny s -> no_newline (string_take n s) = true.
Proof.
  revert n; induction s as [|c s IH]; intros [|n] H; simpl in *;
    try reflexivity.
  destruct (Ascii.eqb c newline); simpl in *; [lia|]. apply IH. lia.
Qed.

Lemma run_any_prefix (e rest : string) :
  no_newline e = true -> String.length e <= run AAny (e ++ rest).
Proof.
  induction e as [|c e IH]; simpl; [lia|].
  intros H. apply andb_prop in H as [Hc He]. rewrite Hc.
  specialize (IH He). lia.
Qed.

Lemma match_suffix_re_off (R : Type) (p full s : string) (c : captures)
    (k : string -> captures -> option R) :
  String.length s <> String.length full ->
  match_re full (RGroup 0 (suffix_re p)) s c k = None.
Proof.
  intros H. cbn [match_re suffix_re].
  apply Nat.eqb_neq in H. now rewrite H.
Qed.

Lemma search_not_at_start (p full s : string) :
  String.length s < String.length full ->
  search_from full (RGroup 0 (suffix_re p)) s = None.
Proof.
  induction s as [|c s IH]; intros H; cbn [search_from];
    rewrite match_suffix_re_off by lia; [reflexivity|].
  apply IH. simpl in H. lia.
Qed.

(** The captures left by a match of [suffix_re p] that gives [n]
    characters to the group. *)
Definition suffix_captures (p full : string) (n : nat) : option captures :=
  match strip_prefix (String "." p) (string_drop n full) with
  | Some t =>
      if at_end t
      then Some [(0, string_take (String.length full - String.length t) full);
                 (1, string_take (String.length full -
                                  String.length (string_drop n full)) full)]
      else None
  | None => None
  end.

Lemma match_suffix_re_start (p full : string) :
  match_re full (RGroup 0 (suffix_re p)) full [] (fun _ c => Some c) =
  backoff 0 (run AAny full) full
    (fun rest =>
       match strip_prefix (String "." p) rest with
       | Some t =>
           if at_end t
           then Some [(0, string_take (String.length full - String.length t) full);
                      (1, string_take (String.length full - String.length rest) full)]
           else None
       | None => None
       end).
Proof.
  cbn [match_re suffix_re]. rewrite Nat.eqb_refl.
  unfold match_atom at 1. apply backoff_ext. intros t.
  exact (match_chars _ full (String "." p) t _
           (fun s' c' =>
              Some ((0, string_take (String.length full - String.length s') full) :: c'))).
Qed.

Lemma backoff_longest_split (p full : string) (n : nat) :
  n <= String.length full ->
  option_map (fun c => PStr (group_text c 1))
    (backoff 0 n full
       (fun rest =>
          match strip_prefix (String "." p) rest with
          | Some t =>
              if at_end t
              then Some [(0, string_take (String.length full - String.length t) full);
                         (1, string_take (String.length full - String.length rest) full)]
              else None
          | None => None
          end)) =
  option_map PStr (longest_split p full n).
Proof.
  induction n as [|n IH]; intros Hn; cbn [backoff longest_split];
    unfold tail_matches; cbn [Nat.add];
    destruct (strip_prefix (String "." p) (string_drop _ full)) as [t|];
    try destruct (at_end t); cbn [option_map]; try reflexivity;
    try (apply IH; lia).
  - unfold group_text; cbn [capture Nat.eqb]. rewrite ?length_drop.
    f_equal. f_equal.
    match goal with
    | |- string_take ?a _ = string_take ?b _ => replace a with b by lia
    end. reflexivity.
  - unfold group_text; cbn [capture Nat.eqb]. rewrite ?length_drop.
    f_equal. f_equal.
    match goal with
    | |- string_take ?a _ = string_take ?b _ => replace a with b by lia
    end. reflexivity.
Qed.

(** [match_param_name] on a suffix without special characters never
    raises, and returns the longest newline-free prefix that the dot, the
    suffix and the end of the name follow. *)
Lemma match_param_name_plain (full p : string) :
  plain p = true ->
  match_param_name full p =
  Ok (option_map PStr (longest_split p full (run AAny full))).
Proof.
  intros H. unfold match_param_name, re_findall_first.
  rewrite (re_compile_plain p H). cbn [bind].
  f_equal.
  rewrite <- backoff_longest_split by apply run_le_length.
  rewrite <- match_suffix_re_start.
  destruct full as [|c full]; cbn [search_from].
  - destruct (match_re _ _ _ _ _); reflexivity.
  - destruct (match_re _ _ _ _ _); [reflexivity|].
    rewrite search_not_at_start by (simpl; lia). reflexivity.
Qed.

Lemma longest_split_sound (p full : string) (n : nat) (e : string) :
  longest_split p full n = Some e ->
  exists m t, m <= n /\ e = string_take m full /\
              string_drop m full = "." ++ p ++ t /\ at_end t = true.
Proof.
  induction n as [|n IH]; cbn [longest_split]; unfold tail_matches;
    destruct (strip_prefix (String "." p) (string_drop _ full)) as [t|] eqn:E;
    try destruct (at_end t) eqn:Et; try discriminate.
  - intros [= <-]. apply strip_prefix_spec in E. exists 0, t. auto.
  - intros [= <-]. apply strip_prefix_spec in E. exists (S n), t. auto.
  - intros H. destruct (IH H) as (m & t' & ? & ?). exists m, t'. split; [lia|tauto].
  - intros H. destruct (IH H) as (m & t' & ? & ?). exists m, t'. split; [lia|tauto].
Qed.

Lemma longest_split_complete (p full : string) (n m : nat) :
  m <= n ->
  tail_matches p (string_drop m full) = true ->
  (forall m', m < m' <= n -> tail_matches p (string_drop m' full) = false) ->
  longest_split p full n = Some (string_take m full).
Proof.
  induction n as [|n IH]; intros Hm Ht Hgt; cbn [longest_split].
  - assert (m = 0) as -> by lia. now rewrite Ht.
  - destruct (Nat.eq_dec m (S n)) as [->|Hne].
    + now rewrite Ht.
    + rewrite (Hgt (S n)) by lia. apply IH; [lia | exact Ht |].
      intros m' Hm'. apply Hgt. lia.
Qed.

Lemma no_newline_app (a b : string) :
  no_newline (a ++ b) = no_newline a && no_newline b.
Proof.
  induction a as [|c a IH]; simpl; [reflexivity|].
  now rewrite IH, andb_assoc.
Qed.

Lemma no_dot_app (a b : string) : no_dot (a ++ b) = no_dot a && no_dot b.
Proof.
  induction a as [|c a IH]; simpl; [reflexivity|].
  now rewrite IH, andb_assoc.
Qed.

Lemma plain_no_dot (s : string) : plain s = true -> no_dot s = true.
Proof.
  induction s as [|c s IH]; simpl; [reflexivity|].
  intros H. apply andb_prop in H as [Hc Hs]. rewrite (IH Hs), andb_true_r.
  destruct (Ascii.eqb_spec c ".") as [->|]; [discriminate Hc | reflexivity].
Qed.

Lemma at_end_cases (t : string) :
  at_end t = true -> t = "" \/ t = String newline "".
Proof.
  destruct t as [|x [|y t]]; simpl; try discriminate; auto.
  destruct (Ascii.eqb_spec x newline) as [->|]; [auto | discriminate].
Qed.

(** On a plain suffix, a returned entity is a newline-free prefix that the
    dot and the suffix follow, up to a final newline. *)
Lemma match_param_name_plain_sound (full p : string) (r : pyval) :
  plain p = true ->
  match_param_name full p = Ok (Some r) ->
  exists e t, r = PStr e /\ full = e ++ "." ++ p ++ t /\
              at_end t = true /\ no_newline e = true.
Proof.
  intros Hp H. rewrite (match_param_name_plain _ _ Hp) in H.
  destruct (longest_split p full (run AAny full)) as [e|] eqn:E;
    [|discriminate]. injection H as <-.
  destruct (longest_split_sound _ _ _ _ E) as (m & t & Hm & -> & Hd & Ht).
  exists (string_take m full), t. repeat split; auto.
  - now rewrite <- Hd, take_drop.
  - now apply run_any_take.
Qed.

(** The name merged from a newline-free entity and a plain suffix is
    parsed back to the entity. *)
Lemma match_merge_plain (e p : string) :
  plain p = true -> no_newline e = true ->
  match_param_name (merge_names e p) p = Ok (Some (PStr e)).
Proof.
  intros Hp He. rewrite (match_param_name_plain _ _ Hp). unfold merge_names.
  rewrite (longest_split_complete p _ _ (String.length e)).
  - now rewrite string_take_append.
  - now apply run_any_prefix.
  - rewrite string_drop_append. unfold tail_matches.
    assert (E : strip_prefix (String "." p) ("." ++ p) = Some "")
      by (apply strip_prefix_spec; simpl; now rewrite append_empty_r).
    now rewrite E.
  - intros m' [Hlo Hhi]. unfold tail_matches.
    destruct (strip_prefix _ _) as [t|] eqn:E; [|reflexivity].
    apply strip_prefix_spec in E. apply (f_equal String.length) in E.
    rewrite length_drop in E.
    change (String.length ("." ++ p ++ t)) with (S (String.length (p ++ t))) in E.
    rewrite !length_append in E. simpl in E. lia.
Qed.

(** For names without a newline and plain suffixes, [match_param_name] is
    the literal test "ends with the dot and the suffix". *)
Lemma match_param_name_literal (full p e : string) :
  plain p = true -> no_newline full = true ->
  match_param_name full p = Ok (Some (PStr e)) <-> full = e ++ "." ++ p.
Proof.
  intros Hp Hf. split.
  - intros H.
    destruct (match_param_name_plain_sound _ _ _ Hp H) as (e' & t & [= <-] & E & Ht & _).
    destruct (at_end_cases _ Ht) as [->| ->].
    + now rewrite append_empty_r in E.
    + rewrite E in Hf. rewrite !no_newline_app in Hf. simpl in Hf.
      rewrite ?andb_false_r in Hf. discriminate.
  - intros ->. apply (match_merge_plain e p Hp).
    rewrite no_newline_app in Hf. now apply andb_prop in Hf as [-> _].
Qed.

Lemma match_param_name_literal_none (full p : string) :
  plain p = true -> no_newline full = true ->
  match_param_name full p = Ok None <-> ~ exists e, full = e ++ "." ++ p.
Proof.
  intros Hp Hf. split.
  - intros H [e He]. apply (match_param_name_literal full p e Hp Hf) in He.
    rewrite H in He. discriminate.
  - intros Hn. rewrite (match_param_name_plain _ _ Hp).
    destruct (longest_split p full (run AAny full)) as [e|] eqn:E; [|reflexivity].
    exfalso. apply Hn. exists e.
    apply (match_param_name_literal full p e Hp Hf).
    now rewrite (match_param_name_plain _ _ Hp), E.
Qed.

(** ** Dictionaries *)

Section DictFacts.
Context {K V : Type}.
Variable K_dec : forall x y : K, {x = y} + {x <> y}.

Local Open Scope list_scope.

#[local] Abbreviation get := (dict_get K_dec).
#[local] Abbreviation set := (dict_set K_dec).
#[local] Abbreviation pop := (dict_pop K_dec).

Lemma dict_get_in (k : K) (v : V) (d : dict K V) :
  get k d = Some v -> In (k, v) d.
Proof.
  induction d as [|[k' v'] d IH]; simpl; [discriminate|].
  destruct (K_dec k k') as [->|]; [intros [= ->]; now left | auto].
Qed.

Lemma dict_get_none (k : K) (d : dict K V) :
  get k d = None <-> ~ In k (dict_keys d).
Proof.
  induction d as [|[k' v'] d IH]; simpl; [tauto|].
  destruct (K_dec k k') as [->|Hn].
  - split; [discriminate | intros H; elim H; now left].
  - rewrite IH. split; [intros H [E|E]; [now elim Hn | auto] | auto].
Qed.

Lemma dict_get_some (k : K) (d : dict K V) :
  In k (dict_keys d) -> exists v, get k d = Some v.
Proof.
  intros H. destruct (get k d) as [v|] eqn:E; [now exists v|].
  now apply dict_get_none in E.
Qed.

Lemma in_dict_get (k : K) (v : V) (d : dict K V) :
  dict_wf d -> In (k, v) d -> get k d = Some v.
Proof.
  unfold dict_wf. induction d as [|[k' v'] d IH]; simpl; [tauto|].
  intros Hwf [E|Hin]; inversion Hwf as [|? ? Hk Hd]; subst.
  - injection E as -> ->. destruct (K_dec k k); [reflexivity | congruence].
  - destruct (K_dec k k') as [->|]; [|auto].
    elim Hk. change k' with (fst (k', v)). now apply in_map.
Qed.


Lemma dict_set_fresh (k : K) (v : V) (d : dict K V) :
  ~ In k (dict_keys d) -> set k v d = d ++ [(k, v)].
Proof.
  induction d as [|[k' v'] d IH]; simpl; [reflexivity|].
  intros H. destruct (K_dec k k') as [->|].
  - elim H. now left.
  - rewrite IH; [reflexivity | auto].
Qed.

Lemma dict_get_mid (k : K) (v : V) (pre post : dict K V) :
  ~ In k (dict_keys pre) -> get k (pre ++ (k, v) :: post) = Some v.
Proof.
  induction pre as [|[k' v'] pre IH]; simpl; intros H.
  - destruct (K_dec k k); [reflexivity | congruence].
  - destruct (K_dec k k') as [->|]; [elim H; now left | auto].
Qed.

Lemma dict_set_mid (k : K) (v v0 : V) (pre post : dict K V) :
  ~ In k (dict_keys pre) ->
  set k v (pre ++ (k, v0) :: post) = pre ++ (k, v) :: post.
Proof.
  induction pre as [|[k' v'] pre IH]; simpl; intros H.
  - destruct (K_dec k k); [reflexivity | congruence].
  - destruct (K_dec k k') as [->|]; [elim H; now left|].
    rewrite IH; [reflexivity | auto].
Qed.

Lemma dict_get_set_same (k : K) (v : V) (d : dict K V) :
  get k (set k v d) = Some v.
Proof.
  induction d as [|[k' v'] d IH]; simpl.
  - destruct (K_dec k k); [reflexivity | congruence].
  - destruct (K_dec k k') as [E|N]; simpl.
    + destruct (K_dec k k'); [reflexivity | congruence].
    + destruct (K_dec k k'); [congruence | exact IH].
Qed.

Lemma dict_get_set_other (k k' : K) (v : V) (d : dict K V) :
  k <> k' -> get k' (set k v d) = get k' d.
Proof.
  intros Hn. induction d as [|[k0 v0] d IH]; simpl.
  - destruct (K_dec k' k); [congruence | reflexivity].
  - destruct (K_dec k k0) as [->|]; simpl.
    + destruct (K_dec k' k0); [congruence | reflexivity].
    + destruct (K_dec k' k0); [reflexivity | exact IH].
Qed.

Lemma dict_keys_set_in (k : K) (v : V) (d : dict K V) :
  In k (dict_keys d) -> dict_keys (set k v d) = dict_keys d.
Proof.
  induction d as [|[k' v'] d IH]; simpl; [tauto|].
  intros H. destruct (K_dec k k') as [->|Hn]; simpl; [reflexivity|].
  rewrite IH; [reflexivity|]. destruct H; [congruence | assumption].
Qed.

Lemma dict_set_wf (k : K) (v : V) (d : dict K V) :
  dict_wf d -> dict_wf (set k v d).
Proof.
  unfold dict_wf. intros H.
  destruct (in_dec K_dec k (dict_keys d)) as [Hin|Hout].
  - now rewrite dict_keys_set_in.
  - rewrite dict_set_fresh by assumption. unfold dict_keys.
    rewrite map_app. simpl.
    apply NoDup_app; [assumption | repeat constructor; tauto |].
    intros x Hx [<-|[]]. now apply Hout.
Qed.

Lemma dict_keys_pop_incl (k k' : K) (d : dict K V) :
  In k' (dict_keys (pop k d)) -> In k' (dict_keys d).
Proof.
  induction d as [|[k0 v0] d IH]; simpl; [tauto|].
  destruct (K_dec k k0); simpl; [auto | intros [?|?]; auto].
Qed.

Lemma dict_pop_wf (k : K) (d : dict K V) : dict_wf d -> dict_wf (pop k d).
Proof.
  unfold dict_wf. induction d as [|[k0 v0] d IH]; simpl; [auto|].
  intros H. inversion H as [|? ? Hk Hd]; subst.
  destruct (K_dec k k0); [assumption|]. simpl. constructor; [|auto].
  intros Hin. apply Hk. eapply dict_keys_pop_incl; eassumption.
Qed.

Lemma dict_pop_absent (k : K) (d : dict K V) :
  dict_wf d -> ~ In k (dict_keys (pop k d)).
Proof.
  unfold dict_wf. induction d as [|[k0 v0] d IH]; simpl; [tauto|].
  intros H. inversion H as [|? ? Hk Hd]; subst.
  destruct (K_dec k k0) as [->|Hn]; [assumption|]. simpl.
  intros [E|E]; [congruence | now apply IH].
Qed.

Lemma dict_pop_none (k : K) (d : dict K V) :
  ~ In k (dict_keys d) -> pop k d = d.
Proof.
  induction d as [|[k0 v0] d IH]; simpl; [reflexivity|].
  intros H. destruct (K_dec k k0) as [->|]; [elim H; now left|].
  rewrite IH; [reflexivity | auto].
Qed.

(** Storing a list of entries with distinct new keys appends them. *)
Lemma fold_set_fresh (l acc : dict K V) :
  NoDup (dict_keys (acc ++ l)) ->
  fold_left (fun d kv => set (fst kv) (snd kv) d) l acc = acc ++ l.
Proof.
  revert acc; induction l as [|[k v] l IH]; intros acc H; simpl.
  - now rewrite app_nil_r.
  - rewrite dict_set_fresh.
    + rewrite IH; rewrite <- app_assoc; [reflexivity | exact H].
    + unfold dict_keys in H. rewrite map_app in H. simpl in H.
      apply NoDup_remove_2 in H. intros Hin. apply H.
      apply in_or_app. now left.
Qed.

Lemma dict_set_in (k k' : K) (v v' : V) (d : dict K V) :
  In (k', v') (set k v d) -> (k', v') = (k, v) \/ In (k', v') d.
Proof.
  induction d as [|[k0 v0] d IH]; simpl.
  - intros [E|[]]. now left.
  - destruct (K_dec k k0) as [->|]; simpl.
    + intros [E|E]; [now left | right; now right].
    + intros [E|E]; [right; now left|].
      destruct (IH E); [now left | right; now right].
Qed.

Lemma dict_of_pairs_in (k : K) (v : V) (l : list (K * V)) :
  In (k, v) (dict_of_pairs K_dec l) -> In (k, v) l.
Proof.
  unfold dict_of_pairs.
  assert (G : forall acc,
            In (k, v) (fold_left (fun d kv => set (fst kv) (snd kv) d) l acc) ->
            In (k, v) l \/ In (k, v) acc).
  { induction l as [|[k0 v0] l IH]; intros acc H; simpl in *; [now right|].
    destruct (IH _ H) as [?|Hs]; [left; now right|].
    apply dict_set_in in Hs as [E|?]; [left; left; now symmetry | now right]. }
  intros H. destruct (G [] H) as [?|[]]. assumption.
Qed.

Lemma dict_of_pairs_wf (l : list (K * V)) : dict_wf (dict_of_pairs K_dec l).
Proof.
  unfold dict_of_pairs.
  assert (G : forall acc, dict_wf acc ->
            dict_wf (fold_left (fun d kv => set (fst kv) (snd kv) d) l acc)).
  { induction l as [|[k v] l IH]; intros acc H; simpl; [exact H|].
    apply IH. now apply dict_set_wf. }
  apply G. constructor.
Qed.

Lemma dict_of_pairs_items (d : dict K V) :
  dict_wf d -> dict_of_pairs K_dec d = d.
Proof. intros H. unfold dict_of_pairs. now rewrite fold_set_fresh. Qed.
End DictFacts.

(** ** The grouping loops *)

(** The slots [(module_path, param_name)] that one key is stored under,
    in the order of the suffixes. *)
Definition slots_of (params_to_nest : list string) (key : string)
    : list (pyval * string) :=
  flat_map
    (fun param_name =>
       match match_param_name key param_name with
       | Ok (Some mp) => if truthy (Some mp) then [(mp, param_name)] else []
       | _ => []
       end)
    params_to_nest.

Definition is_matched (params_to_nest : list string) (key : string) : bool :=
  match slots_of params_to_nest key with
  | [] => false
  | _ => true
  end.

Lemma in_slots_of (params_to_nest : list string) (key : string)
    (mp : pyval) (param_name : string) :
  In (mp, param_name) (slots_of params_to_nest key) <->
  In param_name params_to_nest /\
  match_param_name key param_name = Ok (Some mp) /\
  truthy (Some mp) = true.
Proof.
  unfold slots_of. rewrite in_flat_map. split.
  - intros (q & Hq & Hin).
    destruct (match_param_name key q) as [[r|]| |] eqn:E; try contradiction.
    destruct (truthy (Some r)) eqn:T; [|contradiction].
    destruct Hin as [[= <- <-]|[]]. auto.
  - intros (Hin & E & T). exists param_name. split; [exact Hin|].
    rewrite E, T. now left.
Qed.

Section GroupFacts.
Context {V : Type}.

Local Open Scope list_scope.

Definition slot_get (mp : pyval) (param_name : string)
    (nested : nested_mapping V) : option V :=
  match dict_get pyval_dec mp nested with
  | Some inner => dict_get string_dec param_name inner
  | None => None
  end.

Definition store_all (value : V) (slots : list (pyval * string))
    (nested : nested_mapping V) : nested_mapping V :=
  fold_left (fun n sl => nested_store (fst sl) (snd sl) value n) slots nested.


Definition nested_wf (nested : nested_mapping V) : Prop :=
  dict_wf nested /\ forall en, In en nested -> dict_wf (snd en).

Lemma nested_store_eq (mp : pyval) (param_name : string) (value : V)
    (nested : nested_mapping V) :
  nested_store mp param_name value nested =
  match dict_get pyval_dec mp nested with
  | Some inner =>
      dict_set pyval_dec mp (dict_set string_dec param_name value inner) nested
  | None => nested ++ [(mp, [(param_name, value)])]
  end.
Proof.
  unfold nested_store, dict_mem.
  destruct (dict_get pyval_dec mp nested) as [inner|] eqn:E.
  - now rewrite E.
  - apply dict_get_none in E.
    rewrite (dict_set_fresh pyval_dec mp [] nested E).
    rewrite (dict_get_mid pyval_dec mp [] nested [] E).
    now rewrite (dict_set_mid pyval_dec mp _ [] nested [] E).
Qed.

Lemma slot_get_store (mp mp' : pyval) (p p' : string) (value : V)
    (nested : nested_mapping V) :
  slot_get mp' p' (nested_store mp p value nested) =
  if pyval_dec mp mp' then
    if string_dec p p' then Some value else slot_get mp' p' nested
  else slot_get mp' p' nested.
Proof.
  rewrite nested_store_eq. unfold slot_get.
  destruct (pyval_dec mp mp') as [<-|Hn].
  - destruct (dict_get pyval_dec mp nested) as [inner|] eqn:E.
    + rewrite dict_get_set_same.
      destruct (string_dec p p') as [<-|Hp].
      * apply dict_get_set_same.
      * now apply dict_get_set_other.
    + apply dict_get_none in E.
      rewrite (dict_get_mid pyval_dec mp _ nested [] E).
      simpl. destruct (string_dec p' p), (string_dec p p'); congruence.
  - destruct (dict_get pyval_dec mp nested) as [inner|] eqn:E.
    + now rewrite dict_get_set_other.
    + apply dict_get_none in E.
      rewrite <- (dict_set_fresh pyval_dec mp [(p, value)] nested E).
      now rewrite dict_get_set_other by assumption.
Qed.

Lemma nest_params_spec (key : string) (value : V) (params : list string)
    (nested nested' : nested_mapping V) (matched matched' : bool) :
  nest_params key value params nested matched = Ok (nested', matched') ->
  nested' = store_all value (slots_of params key) nested /\
  matched' = matched || is_matched params key.
Proof.
  unfold is_matched, slots_of.
  revert nested matched; induction params as [|q params IH];
    intros nested matched; cbn [nest_params flat_map].
  - intros [= <- <-]. now rewrite orb_false_r.
  - destruct (match_param_name key q) as [[r|]| |]; cbn [bind];
      try discriminate.
    + destruct (truthy (Some r)); cbn [app]; intros H;
        apply IH in H as [-> ->].
      * split; [reflexivity|]. now rewrite orb_true_r.
      * now split.
    + change (truthy None) with false. cbn [app].
      intros H; apply IH in H as [-> ->]. now split.
Qed.

(** With suffixes that compile, the inner loop always returns. *)
Lemma nest_params_total (key : string) (value : V) (params : list string)
    (nested : nested_mapping V) (matched : bool) :
  (forall q, In q params -> exists r, match_param_name key q = Ok r) ->
  exists out, nest_params key value params nested matched = Ok out.
Proof.
  revert nested matched; induction params as [|q params IH];
    intros nested matched H; cbn [nest_params].
  - eauto.
  - destruct (H q (or_introl eq_refl)) as [r ->]. cbn [bind].
    assert (H' : forall q', In q' params -> exists r, match_param_name key q' = Ok r)
      by (intros; apply H; now right).
    destruct (truthy r); [destruct r|]; now apply IH.
Qed.

Definition slot_dec (x y : pyval * string) : {x = y} + {x <> y}.
Proof. decide equality; [apply string_dec | apply pyval_dec]. Defined.

Lemma store_all_miss (value : V) (slots : list (pyval * string))
    (mp : pyval) (p : string) (nested : nested_mapping V) :
  ~ In (mp, p) slots ->
  slot_get mp p (store_all value slots nested) = slot_get mp p nested.
Proof.
  unfold store_all.
  revert nested; induction slots as [|[e q] slots IH]; intros nested H;
    cbn [fold_left fst snd]; [reflexivity|].
  rewrite IH by (intros Hin; apply H; now right).
  rewrite slot_get_store.
  destruct (pyval_dec e mp) as [->|]; [|reflexivity].
  destruct (string_dec q p) as [->|]; [|reflexivity].
  elim H. now left.
Qed.

Lemma store_all_hit (value : V) (slots : list (pyval * string))
    (mp : pyval) (p : string) (nested : nested_mapping V) :
  In (mp, p) slots ->
  slot_get mp p (store_all value slots nested) = Some value.
Proof.
  unfold store_all.
  revert nested; induction slots as [|[e q] slots IH]; intros nested H;
    cbn [fold_left fst snd]; [contradiction|].
  destruct (in_dec slot_dec (mp, p) slots) as [Hin|Hout].
  - now apply IH.
  - destruct H as [[= -> ->]|H]; [|contradiction].
    change (fold_left _ slots ?n) with (store_all value slots n).
    rewrite store_all_miss by assumption.
    rewrite slot_get_store.
    destruct (pyval_dec mp mp); [|congruence].
    destruct (string_dec p p); congruence.
Qed.

(** The stores made for a list of entries, one entry after the other. *)
Definition store_items (params : list string) (items : list (string * V))
    (nested : nested_mapping V) : nested_mapping V :=
  fold_left (fun n kv => store_all (snd kv) (slots_of params (fst kv)) n)
    items nested.

Definition unmatched_items (params : list string) (items : list (string * V))
    : list (string * V) :=
  filter (fun kv => negb (is_matched params (fst kv))) items.


Lemma nest_entry_spec (params : list string) (ret : bool) (key : string)
    (value : V) (acc acc' : nested_mapping V * dict string V) :
  nest_entry params ret key value acc = Ok acc' ->
  fst acc' = store_all value (slots_of params key) (fst acc) /\
  snd acc' = if ret && negb (is_matched params key)
             then dict_set string_dec key value (snd acc) else snd acc.
Proof.
  unfold nest_entry.
  destruct (nest_params key value params (fst acc) false) as [[n m]| |] eqn:E;
    cbn [bind]; try discriminate.
  apply nest_params_spec in E as [-> ->]. cbn [orb].
  destruct (ret && negb (is_matched params key)); intros [= <-]; now split.
Qed.

Lemma nest_items_spec (params : list string) (ret : bool)
    (items : list (string * V)) (acc acc' : nested_mapping V * dict string V) :
  nest_items params ret items acc = Ok acc' ->
  fst acc' = store_items params items (fst acc) /\
  snd acc' =
    if ret
    then fold_left (fun d kv => dict_set string_dec (fst kv) (snd kv) d)
           (unmatched_items params items) (snd acc)
    else snd acc.
Proof.
  unfold store_items, unmatched_items.
  revert acc; induction items as [|[k v] items IH]; intros acc;
    cbn [nest_items fold_left filter fst snd].
  - intros [= <-]. now destruct ret.
  - destruct (nest_entry params ret k v acc) as [acc1| |] eqn:E;
      cbn [bind]; try discriminate.
    apply nest_entry_spec in E as [E1 E2]. intros H.
    apply IH in H as [-> ->]. rewrite E1, E2. split; [reflexivity|].
    destruct ret; cbn [andb]; [|reflexivity].
    now destruct (is_matched params k).
Qed.

Lemma nest_items_total (params : list string) (ret : bool)
    (items : list (string * V)) (acc : nested_mapping V * dict string V) :
  (forall k q, In k (dict_keys items) -> In q params ->
               exists r, match_param_name k q = Ok r) ->
  exists acc', nest_items params ret items acc = Ok acc'.
Proof.
  revert acc; induction items as [|[k v] items IH]; intros acc H;
    cbn [nest_items]; [eauto|].
  unfold nest_entry.
  destruct (nest_params_total k v params (fst acc) false) as [[n m] ->].
  { intros q Hq. apply H; [now left | exact Hq]. }
  cbn [bind]. destruct (ret && negb m); cbn [bind];
    apply IH; intros; apply H; auto; now right.
Qed.

(** Reading the values through the keys gives the same run as reading
    the items. *)
Lemma nest_keys_items (state_dict : dict string V) (params : list string)
    (ret : bool) (items : list (string * V))
    (acc : nested_mapping V * dict string V) :
  (forall k v, In (k, v) items -> dict_get string_dec k state_dict = Some v) ->
  nest_keys state_dict params ret (dict_keys items) acc =
  nest_items params ret items acc.
Proof.
  revert acc; induction items as [|[k v] items IH]; intros acc H;
    cbn [dict_keys map fst nest_keys nest_items]; [reflexivity|].
  rewrite (H k v (or_introl eq_refl)).
  destruct (nest_entry params ret k v acc); cbn [bind]; try reflexivity.
  apply IH. intros; apply H; now right.
Qed.








Lemma unmatched_items_wf (params : list string) (items : dict string V) :
  dict_wf items -> dict_wf (unmatched_items params items).
Proof.
  unfold dict_wf, dict_keys, unmatched_items.
  induction items as [|kv items IH]; cbn [filter map]; [auto|].
  intros H. inversion H as [|? ? Hk Hd]; subst.
  destruct (negb (is_matched params (fst kv))); [|auto].
  cbn [map]. constructor; [|auto].
  intros Hin. apply Hk. apply in_map_iff in Hin as (x & <- & Hx).
  apply filter_In in Hx as [Hx _]. now apply in_map.
Qed.
End GroupFacts.

(** ** Headers and weight locations *)

Lemma dictify_obj_wf (j : json) (d : dict string json) :
  dictify j = JObj d -> dict_wf d.
Proof.
  destruct j; simpl; try discriminate. intros [= <-].
  apply dict_of_pairs_wf.
Qed.

Lemma dict_pop_map (f : json -> json) (k : string) (d : dict string json) :
  dict_pop string_dec k (map (fun kv => (fst kv, f (snd kv))) d) =
  map (fun kv => (fst kv, f (snd kv))) (dict_pop string_dec k d).
Proof.
  induction d as [|[k0 v0] d IH]; simpl; [reflexivity|].
  destruct (string_dec k k0); simpl; [reflexivity | now rewrite IH].
Qed.

Lemma dict_keys_map (f : json -> json) (d : dict string json) :
  dict_keys (map (fun kv => (fst kv, f (snd kv))) d) = dict_keys d.
Proof.
  unfold dict_keys. rewrite map_map. apply map_ext. reflexivity.
Qed.

Lemma dict_get_map (f : json -> json) (k : string) (d : dict string json) :
  dict_get string_dec k (map (fun kv => (fst kv, f (snd kv))) d) =
  option_map f (dict_get string_dec k d).
Proof.
  induction d as [|[k0 v0] d IH]; simpl; [reflexivity|].
  destruct (string_dec k k0); [reflexivity | exact IH].
Qed.

Lemma dictify_member (j : json) (d : dict string json) (k : string) (v : json) :
  dictify j = JObj d -> In (k, v) d -> exists v0, v = dictify v0.
Proof.
  destruct j as [| | | | |members]; simpl; try discriminate. intros [= <-] H.
  apply dict_of_pairs_in in H. apply in_map_iff in H as ([k0 v0] & E & _).
  injection E as _ <-. now exists v0.
Qed.

Section LoaderFacts.
Variable py : interpreter.
Variable json_scan_bytes : list byte -> option json.
Variable json_scan_text : list byte -> option json.
Variable SAFE_WEIGHTS_NAME : string.
Variable SAFE_WEIGHTS_INDEX_NAME : string.

Local Open Scope list_scope.

#[local] Abbreviation header_of :=
  (get_safetensors_header py json_scan_bytes).
#[local] Abbreviation weights_of :=
  (get_weight_mappings py json_scan_bytes json_scan_text
     SAFE_WEIGHTS_NAME SAFE_WEIGHTS_INDEX_NAME).

(** What the first loop leaves for one value. *)
Definition located (location : string) (v : json) : json := JStr location.

Lemma set_all_gen (location : string) (pre l : dict string json) :
  dict_wf (pre ++ l) ->
  fold_left (fun h key => dict_set string_dec key (JStr location) h)
    (dict_keys l) (pre ++ l) =
  pre ++ map (fun kv => (fst kv, located location (snd kv))) l.
Proof.
  unfold dict_wf. revert pre; induction l as [|[k v] l IH]; intros pre H;
    cbn [dict_keys map fold_left fst snd]; [reflexivity|].
  assert (Hpre : ~ In k (dict_keys pre)).
  { unfold dict_keys in *. rewrite map_app in H. cbn [map fst] in H.
    apply NoDup_remove_2 in H. intros Hin. apply H, in_or_app. now left. }
  rewrite (dict_set_mid string_dec k _ v pre l Hpre).
  replace (pre ++ (k, JStr location) :: l)
    with ((pre ++ [(k, JStr location)]) ++ l) by (now rewrite <- app_assoc).
  rewrite IH.
  - now rewrite <- app_assoc.
  - unfold dict_keys in *. rewrite <- app_assoc. cbn [app].
    rewrite map_app in *. exact H.
Qed.

Lemma set_all_map (location : string) (d : dict string json) :
  dict_wf d ->
  set_all location d =
  map (fun kv => (fst kv, located location (snd kv))) d.
Proof. intros H. apply (set_all_gen location [] d H). Qed.

(** What the joining loop leaves for one value. *)
Definition joined (path : string) (v : json) : json :=
  match v with
  | JStr f => JStr (os_path_join path f)
  | _ => v
  end.

Definition is_str (v : json) : bool :=
  match v with
  | JStr _ => true
  | _ => false
  end.

Lemma join_all_gen (path : string) (pre l : dict string json) :
  dict_wf (pre ++ l) ->
  forallb (fun kv => is_str (snd kv)) l = true ->
  join_all path l (pre ++ l) =
  Ok (pre ++ map (fun kv => (fst kv, joined path (snd kv))) l).
Proof.
  unfold dict_wf. revert pre; induction l as [|[k v] l IH]; intros pre H Hs;
    cbn [join_all map fst snd]; [reflexivity|].
  cbn [forallb snd] in Hs. apply andb_prop in Hs as [Hv Hs].
  destruct v; try discriminate Hv.
  assert (Hpre : ~ In k (dict_keys pre)).
  { unfold dict_keys in *. rewrite map_app in H. cbn [map fst] in H.
    apply NoDup_remove_2 in H. intros Hin. apply H, in_or_app. now left. }
  rewrite (dict_set_mid string_dec k _ (JStr s) pre l Hpre).
  replace (pre ++ (k, JStr (os_path_join path s)) :: l)
    with ((pre ++ [(k, JStr (os_path_join path s))]) ++ l)
    by (now rewrite <- app_assoc).
  rewrite IH.
  - now rewrite <- app_assoc.
  - unfold dict_keys in *. rewrite <- app_assoc. cbn [app].
    rewrite map_app in *. exact H.
  - exact Hs.
Qed.

Lemma join_all_map (path : string) (d : dict string json) :
  dict_wf d ->
  forallb (fun kv => is_str (snd kv)) d = true ->
  join_all path d d = Ok (map (fun kv => (fst kv, joined path (snd kv))) d).
Proof. intros H Hs. apply (join_all_gen path [] d H Hs). Qed.

Lemma header_dictified (fs : filesystem) (p : string) (j : json) :
  header_of fs p = Ok j -> exists j0, j = dictify j0.
Proof.
  unfold get_safetensors_header, json_loads.
  destruct (open_file fs p); cbn [bind]; try discriminate.
  destruct (struct_unpack_Q _); cbn [bind]; try discriminate.
  destruct (file_read py _ _); cbn [bind]; try discriminate.
  destruct (json_scan_bytes _) as [j0|]; [|discriminate].
  intros [= <-]. now exists j0.
Qed.

(** The two branches that read one file: every key of its header but the
    reserved one, each sent to [location]. *)
Definition single_file (fs : filesystem) (file location : string)
    : result (dict string json) :=
  header <- header_of fs file ;;
  header <- as_dict header ;;
  Ok (dict_pop string_dec "__metadata__" (set_all location header)).

Lemma single_file_shape (fs : filesystem) (file location : string)
    (m : dict string json) :
  single_file fs file location = Ok m ->
  exists d, dict_wf d /\
    m = map (fun kv => (fst kv, located location (snd kv)))
          (dict_pop string_dec "__metadata__" d).
Proof.
  unfold single_file.
  destruct (header_of fs file) as [j| |] eqn:E; cbn [bind]; try discriminate.
  destruct (header_dictified _ _ _ E) as [j0 ->].
  destruct (dictify j0) as [| | | | |d] eqn:Ed; cbn [as_dict bind];
    try discriminate.
  intros [= <-]. exists d. pose proof (dictify_obj_wf _ _ Ed) as Hwf.
  split; [exact Hwf|]. rewrite (set_all_map _ _ Hwf). apply dict_pop_map.
Qed.

Lemma weights_of_file (fs : filesystem) (p : string) :
  os_path_isfile fs p = true ->
  weights_of fs p = single_file fs p p.
Proof. intros H. unfold get_weight_mappings. now rewrite H. Qed.

Lemma weights_of_canonical (fs : filesystem) (p : string) :
  os_path_isfile fs p = false ->
  os_path_exists fs (os_path_join p SAFE_WEIGHTS_NAME) = true ->
  weights_of fs p =
  (header <- single_file fs (os_path_join p SAFE_WEIGHTS_NAME) SAFE_WEIGHTS_NAME ;;
   join_all p header header).
Proof.
  intros H1 H2. unfold get_weight_mappings. rewrite H1, H2. reflexivity.
Qed.

Lemma weights_of_index (fs : filesystem) (p : string) :
  os_path_isfile fs p = false ->
  os_path_exists fs (os_path_join p SAFE_WEIGHTS_NAME) = false ->
  os_path_exists fs (os_path_join p SAFE_WEIGHTS_INDEX_NAME) = true ->
  weights_of fs p =
  (header <-
     (content <- open_file fs (os_path_join p SAFE_WEIGHTS_INDEX_NAME) ;;
      index <- json_load json_scan_text content ;;
      header <- getitem index "weight_map" ;;
      as_dict header) ;;
   join_all p header header).
Proof.
  intros H1 H2 H3. unfold get_weight_mappings. rewrite H1, H2, H3. reflexivity.
Qed.

Lemma weights_of_missing (fs : filesystem) (p : string) :
  os_path_isfile fs p = false ->
  os_path_exists fs (os_path_join p SAFE_WEIGHTS_NAME) = false ->
  os_path_exists fs (os_path_join p SAFE_WEIGHTS_INDEX_NAME) = false ->
  weights_of fs p =
  Raise (ValueError
           ("Could not find a safetensors weight or index file at " ++ p)).
Proof.
  intros H1 H2 H3. unfold get_weight_mappings. rewrite H1, H2, H3. reflexivity.
Qed.

Lemma set_all_wf (location : string) (d : dict string json) :
  dict_wf d -> dict_wf (set_all location d).
Proof.
  unfold set_all. generalize (dict_keys d) as keys.
  intros keys; revert d; induction keys as [|k keys IH]; intros d H;
    cbn [fold_left]; [exact H|].
  apply IH. now apply dict_set_wf.
Qed.

Lemma join_all_wf (path : string) (items header m : dict string json) :
  dict_wf header -> join_all path items header = Ok m -> dict_wf m.
Proof.
  revert header; induction items as [|[k v] items IH]; intros header H;
    cbn [join_all].
  - now intros [= <-].
  - destruct v; try discriminate. apply IH. now apply dict_set_wf.
Qed.

Lemma single_file_wf (fs : filesystem) (file location : string)
    (m : dict string json) :
  single_file fs file location = Ok m -> dict_wf m.
Proof.
  intros H. apply single_file_shape in H as (d & Hwf & ->).
  unfold dict_wf. rewrite dict_keys_map. now apply dict_pop_wf.
Qed.

(** A resolved mapping has distinct keys. *)
Lemma get_weight_mappings_wf (fs : filesystem) (p : string)
    (m : dict string json) :
  weights_of fs p = Ok m -> dict_wf m.
Proof.
  destruct (os_path_isfile fs p) eqn:H1.
  { rewrite weights_of_file by assumption. apply single_file_wf. }
  destruct (os_path_exists fs (os_path_join p SAFE_WEIGHTS_NAME)) eqn:H2.
  { rewrite weights_of_canonical by assumption.
    destruct (single_file fs _ _) as [h| |] eqn:E; cbn [bind]; try discriminate.
    apply join_all_wf. now apply single_file_wf in E. }
  destruct (os_path_exists fs (os_path_join p SAFE_WEIGHTS_INDEX_NAME)) eqn:H3.
  - rewrite weights_of_index by assumption.
    destruct (open_file fs _) as [content| |]; cbn [bind]; try discriminate.
    unfold json_load.
    destruct (json_scan_text content) as [j0|]; cbn [bind]; try discriminate.
    unfold getitem.
    destruct (dictify j0) as [| | | | |d] eqn:Ed; cbn [bind]; try discriminate.
    destruct (dict_get string_dec "weight_map" d) as [v|] eqn:Ev;
      cbn [bind]; try discriminate.
    apply dict_get_in in Ev.
    destruct (dictify_member _ _ _ _ Ed Ev) as [v0 ->].
    destruct (dictify v0) as [| | | | |h] eqn:Eh; cbn [as_dict bind];
      try discriminate.
    apply join_all_wf. now apply dictify_obj_wf in Eh.
  - rewrite weights_of_missing by assumption. discriminate.
Qed.
End LoaderFacts.

(** ** A decoder to run the examples

    The properties below hold for any decoder. To evaluate the functions
    on concrete files, this one reads the JSON documents made of objects,
    arrays, integers, [true], [false], [null] and strings of printable
    ASCII characters without escapes, on which it agrees with Python's
    [json] module; it gives up on any other input. *)

Definition dquote : ascii := "034"%char.

Definition is_ws (c : ascii) : bool :=
  match c with
  | " "%char | "009"%char | "010"%char | "013"%char => true
  | _ => false
  end.

Fixpoint skip_ws (s : string) : string :=
  match s with
  | String c s' => if is_ws c then skip_ws s' else s
  | EmptyString => s
  end.

(** The text of a string after its opening quote, and what follows the
    closing quote. *)
Fixpoint scan_string (s : string) : option (string * string) :=
  match s with
  | EmptyString => None
  | String c s' =>
      if Ascii.eqb c dquote then Some (EmptyString, s')
      else if Ascii.eqb c "\" || (nat_of_ascii c <? 32) || (126 <? nat_of_ascii c)
      then None
      else
        match scan_string s' with
        | Some (t, r) => Some (String c t, r)
        | None => None
        end
  end.

Fixpoint scan_digits (s : string) : string * string :=
  match s with
  | String c s' =>
      if is_digit c then let '(d, r) := scan_digits s' in (String c d, r)
      else (EmptyString, s)
  | EmptyString => (EmptyString, s)
  end.

Definition scan_number (s : string) : option (json * string) :=
  let '(sign, body) :=
    match s with
    | String "-"%char s' => ("-", s')
    | _ => ("", s)
    end in
  match scan_digits body with
  | (EmptyString, _) => None
  | (String "0"%char (String _ _), _) => None
  | (digits, r) =>
      match r with
      | String "."%char _ | String "e"%char _ | String "E"%char _ => None
      | _ => Some (JNum (sign ++ digits), r)
      end
  end.

Fixpoint scan_value (fuel : nat) (s : string) : option (json * string) :=
  match fuel with
  | 0 => None
  | S fuel' =>
      match skip_ws s with
      | String "{"%char r =>
          match skip_ws r with
          | String "}"%char r' => Some (JObj [], r')
          | _ => scan_members fuel' r []
          end
      | String "["%char r =>
          match skip_ws r with
          | String "]"%char r' => Some (JArr [], r')
          | _ => scan_elements fuel' r []
          end
      | String "034"%char r =>
          match scan_string r with
          | Some (t, r') => Some (JStr t, r')
          | None => None
          end
      | String "t"%char (String "r"%char (String "u"%char (String "e"%char r))) =>
          Some (JBool true, r)
      | String "f"%char (String "a"%char (String "l"%char
          (String "s"%char (String "e"%char r)))) =>
          Some (JBool false, r)
      | String "n"%char (String "u"%char (String "l"%char (String "l"%char r))) =>
          Some (JNull, r)
      | s' => scan_number s'
      end
  end
with scan_members (fuel : nat) (s : string) (acc : list (string * json))
    : option (json * string) :=
  match fuel with
  | 0 => None
  | S fuel' =>
      match skip_ws s with
      | String "034"%char r =>
          match scan_string r with
          | Some (name, r1) =>
              match skip_ws r1 with
              | String ":"%char r2 =>
                  match scan_value fuel' r2 with
                  | Some (v, r3) =>
                      match skip_ws r3 with
                      | String ","%char r4 =>
                          scan_members fuel' r4 (acc ++ [(name, v)])
                      | String "}"%char r4 =>
                          Some (JObj (acc ++ [(name, v)]), r4)
                      | _ => None
                      end
                  | None => None
                  end
              | _ => None
              end
          | None => None
          end
      | _ => None
      end
  end
with scan_elements (fuel : nat) (s : string) (acc : list json)
    : option (json * string) :=
  match fuel with
  | 0 => None
  | S fuel' =>
      match scan_value fuel' s with
      | Some (v, r) =>
          match skip_ws r with
          | String ","%char r' => scan_elements fuel' r' (acc ++ [v])
          | String "]"%char r' => Some (JArr (acc ++ [v]), r')
          | _ => None
          end
      | None => None
      end
  end.

Definition json_scan_ascii (data : list byte) : option json :=
  let s := string_of_list_byte data in
  match scan_value (S (String.length s)) s with
  | Some (j, r) =>
      match skip_ws r with
      | EmptyString => Some j
      | _ => None
      end
  | None => None
  end.

(** Writing documents: ['] stands for the double quote. *)
Fixpoint dq (s : string) : string :=
  match s with
  | String c s' => String (if Ascii.eqb c "'" then dquote else c) (dq s')
  | EmptyString => EmptyString
  end.

Fixpoint le_encode (width : nat) (x : N) : list byte :=
  match width with
  | 0 => []
  | S width' =>
      match Byte.of_N (x mod 256) with
      | Some b => b :: le_encode width' (x / 256)
      | None => []
      end
  end.

(** A checkpoint file with the given header text and payload. *)
Definition safetensors_bytes (header : string) (payload : list byte) : list byte :=
  (le_encode 8 (N.of_nat (String.length header))
   ++ list_byte_of_string header ++ payload)%list.

Definition text_bytes (s : string) : list byte := list_byte_of_string s.

Definition WEIGHTS : string := "model.safetensors".
Definition WEIGHTS_INDEX : string := "model.safetensors.index.json".

(** An interpreter of 64 bits that grants reads up to 2^32 bytes. *)
Definition cpython : interpreter := mkInterpreter (2 ^ 63 - 1) (2 ^ 32).

(** The functions with the example decoder and the file names that
    [transformers] uses. *)
Definition example_header : filesystem -> string -> result json :=
  get_safetensors_header cpython json_scan_ascii.
Definition example_weights : filesystem -> string -> result (dict string json) :=
  get_weight_mappings cpython json_scan_ascii json_scan_ascii WEIGHTS WEIGHTS_INDEX.


(** * The claims of the specification *)

(** ** Grouping and the unmatched remainder *)

Section Partition.
Context {V : Type}.

Local Open Scope list_scope.



Lemma from_state_dict_run (state_dict : dict string V) (params : list string)
    (ret : bool) :
  dict_wf state_dict ->
  get_nested_mappings_from_state_dict state_dict params ret =
  (acc <- nest_items params ret state_dict ([], []) ;; Ok (grouped_of ret acc)).
Proof.
  intros H. unfold get_nested_mappings_from_state_dict.
  rewrite nest_keys_items; [reflexivity|].
  intros k v. now apply in_dict_get.
Qed.

Lemma from_state_dict_result (state_dict : dict string V) (params : list string)
    (nested : nested_mapping V) (unmatched : dict string V) :
  dict_wf state_dict ->
  get_nested_mappings_from_state_dict state_dict params true =
    Ok (NestedAndUnmatched nested unmatched) ->
  nested = store_items params state_dict [] /\
  unmatched = unmatched_items params state_dict.
Proof.
  intros Hwf. rewrite from_state_dict_run by assumption.
  destruct (nest_items params true state_dict ([], [])) as [acc| |] eqn:E;
    cbn [bind]; try discriminate.
  apply nest_items_spec in E as [E1 E2]. cbn [fst snd] in E1, E2.
  unfold grouped_of. intros [= <- <-]. split; [exact E1|].
  rewrite E2. apply (fold_set_fresh string_dec _ []).
  now apply unmatched_items_wf.
Qed.


Lemma plain_params_ok (params : list string) (k q : string) :
  forallb plain params = true -> In q params ->
  exists r, match_param_name k q = Ok r.
Proof.
  intros H Hq. rewrite forallb_forall in H.
  rewrite (match_param_name_plain k q (H q Hq)). eauto.
Qed.

Lemma from_state_dict_total (state_dict : dict string V) (params : list string) :
  dict_wf state_dict -> forallb plain params = true ->
  exists nested unmatched,
    get_nested_mappings_from_state_dict state_dict params true =
    Ok (NestedAndUnmatched nested unmatched).
Proof.
  intros Hwf Hp. rewrite from_state_dict_run by assumption.
  destruct (nest_items_total params true state_dict ([], [])) as [acc ->].
  { intros k q _ Hq. now apply (plain_params_ok params). }
  cbn [bind grouped_of]. eauto.
Qed.
End Partition.



Definition stacked : dict string nat :=
  [("layer.weight_scale", 1); ("layer.zero_point", 2);
   ("layer.bitmask", 3); ("layer.shape", 4)]%list.

Lemma stacked_wf : dict_wf stacked.
Proof.
  unfold dict_wf, stacked; cbn [dict_keys map fst].
  repeat constructor; cbn [In]; intuition discriminate.
Defined.



(** ** Names without an entity *)

Lemma flat_map_nil {A B : Type} (f : A -> list B) (l : list A) :
  (forall x, In x l -> f x = []%list) -> flat_map f l = []%list.
Proof.
  induction l as [|x l IH]; intros H; cbn [flat_map]; [reflexivity|].
  rewrite (H x (or_introl eq_refl)), IH; [reflexivity|].
  intros; apply H; now right.
Qed.

(** With plain suffixes, neither a plain suffix alone nor a dot followed
    by it is stored anywhere. *)
Lemma slots_of_bare (params : list string) (s k : string) :
  forallb plain params = true -> plain s = true ->
  k = "." ++ s \/ k = s ->
  slots_of params k = []%list.
Proof.
  intros Hp Hs Hk. rewrite forallb_forall in Hp.
  pose proof (plain_no_dot s Hs) as Hd.
  unfold slots_of. apply flat_map_nil. intros q Hq.
  destruct (match_param_name k q) as [[r|]| |] eqn:E; try reflexivity.
  destruct (match_param_name_plain_sound k q r (Hp q Hq) E)
    as (e & t & -> & Ek & _ & _).
  destruct e as [|c e]; [reflexivity|]. exfalso.
  destruct Hk as [->| ->].
  - injection Ek as _ Ek. rewrite Ek in Hd.
    rewrite no_dot_app in Hd. cbn in Hd. now rewrite andb_false_r in Hd.
  - rewrite Ek in Hd. change (String c e ++ "." ++ q ++ t)
      with (String c (e ++ "." ++ q ++ t)) in Hd.
    cbn [no_dot] in Hd. rewrite no_dot_app in Hd. cbn in Hd.
    now rewrite !andb_false_r in Hd.
Qed.

Lemma store_items_pop {V : Type} (params : list string) (k : string)
    (items : dict string V) (nested : nested_mapping V) :
  slots_of params k = []%list ->
  store_items params (dict_pop string_dec k items) nested =
  store_items params items nested.
Proof.
  intros Hk. unfold store_items.
  revert nested; induction items as [|[k0 v0] items IH]; intros nested;
    cbn [dict_pop]; [reflexivity|].
  destruct (string_dec k k0) as [<-|]; cbn [fold_left fst snd].
  - now rewrite Hk.
  - apply IH.
Qed.

(** C7, as amended. When no configured suffix has a special character
    (so none has a dot), a name equal to a configured suffix, or to a dot
    followed by it, matches nothing: the grouping returns, the name is in
    the unmatched mapping with its value, and the nested mapping is the one
    obtained without that name in the input. *)
Theorem bare_suffix_is_unmatched (V : Type) (state_dict : dict string V)
    (params : list string) (s k : string) (v : V) :
  forallb plain params = true ->
  In s params ->
  k = "." ++ s \/ k = s ->
  dict_wf state_dict ->
  dict_get string_dec k state_dict = Some v ->
  exists nested unmatched,
    get_nested_mappings_from_state_dict state_dict params true =
      Ok (NestedAndUnmatched nested unmatched) /\
    slots_of params k = []%list /\
    dict_get string_dec k unmatched = Some v /\
    exists unmatched',
      get_nested_mappings_from_state_dict
        (dict_pop string_dec k state_dict) params true =
      Ok (NestedAndUnmatched nested unmatched').
Proof.
  intros Hp Hs Hk Hwf Hv.
  assert (Hplain : plain s = true)
    by (rewrite forallb_forall in Hp; now apply Hp).
  pose proof (slots_of_bare params s k Hp Hplain Hk) as Hslots.
  destruct (from_state_dict_total state_dict params Hwf Hp) as (n & u & E).
  exists n, u. split; [exact E|]. split; [exact Hslots|].
  destruct (from_state_dict_result _ _ _ _ Hwf E) as [-> ->].
  split.
  - apply in_dict_get; [now apply unmatched_items_wf|].
    apply filter_In. split; [now apply (dict_get_in string_dec)|].
    cbn [fst]. unfold is_matched. now rewrite Hslots.
  - pose proof (dict_pop_wf string_dec k state_dict Hwf) as Hwf'.
    destruct (from_state_dict_total _ params Hwf' Hp) as (n' & u' & E').
    exists u'. rewrite E'.
    destruct (from_state_dict_result _ _ _ _ Hwf' E') as [-> _].
    now rewrite store_items_pop.
Qed.

Lemma bare_suffix_is_unmatched_witness :
  exists nested unmatched,
    get_nested_mappings_from_state_dict
      [(".bitmask", 5); ("layer.bitmask", 3)]%list ["bitmask"; "shape"]%list true =
      Ok (NestedAndUnmatched nested unmatched) /\
    slots_of ["bitmask"; "shape"]%list ".bitmask" = []%list /\
    dict_get string_dec ".bitmask" unmatched = Some 5 /\
    exists unmatched',
      get_nested_mappings_from_state_dict
        (dict_pop string_dec ".bitmask" [(".bitmask", 5); ("layer.bitmask", 3)]%list)
        ["bitmask"; "shape"]%list true =
      Ok (NestedAndUnmatched nested unmatched').
Proof.
  apply (bare_suffix_is_unmatched nat _ _ "bitmask").
  - reflexivity.
  - cbn [In]. now left.
  - now left.
  - unfold dict_wf; cbn [dict_keys map fst].
    repeat constructor; cbn [In]; intuition discriminate.
  - reflexivity.
Defined.

(** C7 as stated fails: with the suffixes [b] and [a.b], the name [a.b],
    a configured suffix with no entity before it, is stored under the
    entity [a] and is not in the unmatched mapping. *)
Lemma bare_suffix_is_stored :
  In "a.b" ["b"; "a.b"]%list /\
  get_nested_mappings_from_state_dict [("a.b", 7)]%list ["b"; "a.b"]%list true =
    Ok (NestedAndUnmatched [(PStr "a", [("b", 7)])]%list []) /\
  get_nested_mappings_from_state_dict [(".a.b", 7)]%list ["b"; "a.b"]%list true =
    Ok (NestedAndUnmatched [(PStr ".a", [("b", 7)])]%list []).
Proof.
  split; [cbn [In]; tauto|]. split; vm_compute; reflexivity.
Qed.

(** ** The naming convention *)

(** C2 at a failing input. Merged with the suffix [a+b], the entity
    [layer] is not parsed back: the suffix is read as a pattern, in which
    [+] repeats the [a]; merged with the suffix [w)], parsing back raises
    [re.error]. With a plain suffix and an entity without newline the
    round trip holds, see [match_merge_plain]. *)
Theorem merge_not_parsed_back :
  merge_names "layer" "a+b" = "layer.a+b" /\
  match_param_name (merge_names "layer" "a+b") "a+b" = Ok None /\
  match_param_name (merge_names "layer" "w)") "w)" =
    Raise (ReError "unbalanced parenthesis").
Proof. repeat split; vm_compute; reflexivity. Qed.

(** C3 at failing inputs. The suffix [a.c] matches the name [x.abc],
    which does not end with [.a.c]; the name [x.a+b] ends with [.a+b] and
    is not matched by the suffix [a+b]; and the name made of [x.s] and a
    final newline does not end with [.s] and is matched. For plain
    suffixes and names without newline the test is the literal one, see
    [match_param_name_literal]. *)
Theorem suffix_read_as_pattern :
  (match_param_name "x.abc" "a.c" = Ok (Some (PStr "x")) /\
   ends_with "x.abc" (merge_names "" "a.c") = false) /\
  (match_param_name "x.a+b" "a+b" = Ok None /\
   ends_with "x.a+b" (merge_names "" "a+b") = true) /\
  (match_param_name (String.append "x.s" (String newline "")) "s" =
     Ok (Some (PStr "x")) /\
   ends_with (String.append "x.s" (String newline "")) (merge_names "" "s") = false).
Proof. repeat split; vm_compute; reflexivity. Qed.

(** ** The header reader *)

(** The failures that the specification calls [MalformedHeader]: what the
    reader raises on a file that is too short, on a length that the
    interpreter does not read, and on bytes that are not JSON. *)
Definition MalformedHeader (e : exn) : Prop :=
  e = StructError \/ e = JSONDecodeError \/
  e = OverflowError \/ e = MemoryError.

Ltac header_cases :=
  repeat match goal with
  | |- _ /\ _ => split
  | |- _ -> _ => intro
  | H : _ \/ _ |- _ => destruct H
  | H : _ = None |- _ => rewrite H
  | H : _ = Some _ |- _ => rewrite H
  | |- exists e, Raise _ = Raise e /\ _ => eexists; split; [reflexivity|]
  end;
  try reflexivity; try tauto; try lia.

(** C9. A file of fewer than 8 bytes makes the header reader raise
    [struct.error]. Otherwise, with [L] the little-endian value of the
    first 8 bytes: a length [L] beyond [PY_SSIZE_T_MAX] raises
    [OverflowError] and one beyond what the interpreter allocates raises
    [MemoryError], whatever follows the 8 bytes; with [L] within both
    limits the reader raises a decoding error when the bytes at offsets 8
    to 8+L are not a JSON document, and returns the decoded document when
    they are. So a file that is too short, or whose bytes at offsets 8 to
    8+L are not a JSON document, always makes the reader raise one of the
    [MalformedHeader] failures. *)
Theorem header_reader_outcomes (py : interpreter)
    (json_scan_bytes : list byte -> option json)
    (fs : filesystem) (path : string) (content : list byte) :
  fs path = Some (File content) ->
  let header := get_safetensors_header py json_scan_bytes fs path in
  let L := le_bytes_to_N (firstn 8 content) in
  let data := firstn (N.to_nat L) (skipn 8 content) in
  (length content < 8 ->
   header = Raise StructError /\ MalformedHeader StructError) /\
  (8 <= length content -> (PY_SSIZE_T_MAX py < L)%N ->
   header = Raise OverflowError /\ MalformedHeader OverflowError) /\
  (8 <= length content ->
   (L <= PY_SSIZE_T_MAX py)%N -> (alloc_limit py < L)%N ->
   header = Raise MemoryError /\ MalformedHeader MemoryError) /\
  (8 <= length content ->
   (L <= PY_SSIZE_T_MAX py)%N -> (L <= alloc_limit py)%N ->
   json_scan_bytes data = None ->
   header = Raise JSONDecodeError /\ MalformedHeader JSONDecodeError) /\
  (8 <= length content ->
   (L <= PY_SSIZE_T_MAX py)%N -> (L <= alloc_limit py)%N ->
   forall j, json_scan_bytes data = Some j -> header = Ok (dictify j)) /\
  (length content < 8 \/ json_scan_bytes data = None ->
   exists e, header = Raise e /\ MalformedHeader e).
Proof.
  intros Hf. cbv zeta.
  unfold get_safetensors_header, open_file, struct_unpack_Q, file_read,
    read_refusal, json_loads, MalformedHeader.
  rewrite Hf. cbn [bind]. rewrite length_firstn.
  destruct (Nat.eqb_spec (Nat.min 8 (length content)) 8) as [Hmin|Hmin];
    cbn [bind].
  - destruct (N.ltb_spec (PY_SSIZE_T_MAX py) (le_bytes_to_N (firstn 8 content)))
      as [Hmax|Hmax]; cbn [bind].
    { header_cases. }
    destruct (N.ltb_spec (alloc_limit py) (le_bytes_to_N (firstn 8 content)))
      as [Hal|Hal]; cbn [bind].
    { header_cases. }
    header_cases.
  - header_cases.
Qed.

Definition one_tensor : string :=
  dq "{'w': {'dtype': 'F32', 'shape': [1], 'data_offsets': [0, 4]}, '__metadata__': {'format': 'pt'}}".

Definition one_tensor_file : list byte :=
  safetensors_bytes one_tensor ["000"; "000"; "128"; "063"]%byte%list.

Definition single_fs : filesystem :=
  fun p =>
    if String.eqb p "ckpt" then Some Dir
    else if String.eqb p "ckpt/model.safetensors" then Some (File one_tensor_file)
    else None.

Definition one_tensor_json : json :=
  JObj [("w", JObj [("dtype", JStr "F32"); ("shape", JArr [JNum "1"]);
                    ("data_offsets", JArr [JNum "0"; JNum "4"])]);
        ("__metadata__", JObj [("format", JStr "pt")])]%list.

Lemma header_reader_outcomes_witness :
  example_header single_fs "ckpt/model.safetensors" = Ok one_tensor_json.
Proof.
  refine (proj1 (proj2 (proj2 (proj2 (proj2
            (header_reader_outcomes cpython json_scan_ascii single_fs
               "ckpt/model.safetensors" one_tensor_file eq_refl)))))
            _ _ _ one_tensor_json _).
  - vm_compute. lia.
  - apply N.leb_le. vm_compute. reflexivity.
  - apply N.leb_le. vm_compute. reflexivity.
  - vm_compute. reflexivity.
Defined.

(** Two files whose length is not read: eight bytes [ff] before a JSON
    document, and a text of ten bytes, whose first eight encode a number
    below 2^63. *)
Definition refused_fs : filesystem :=
  fun p =>
    if String.eqb p "big.safetensors"
    then Some (File (repeat "255"%byte 8 ++ text_bytes "{}")%list)
    else if String.eqb p "notes.txt" then Some (File (text_bytes "hello worl"))
    else None.

Example header_length_refused :
  example_header refused_fs "big.safetensors" = Raise OverflowError /\
  example_header refused_fs "notes.txt" = Raise MemoryError.
Proof. split; vm_compute; reflexivity. Qed.

(** ** Resolving weight locations *)

Section Resolver.
Variable py : interpreter.
Variable json_scan_bytes : list byte -> option json.
Variable json_scan_text : list byte -> option json.
Variable SAFE_WEIGHTS_NAME : string.
Variable SAFE_WEIGHTS_INDEX_NAME : string.

Local Open Scope list_scope.

#[local] Abbreviation resolve :=
  (get_weight_mappings py json_scan_bytes json_scan_text
     SAFE_WEIGHTS_NAME SAFE_WEIGHTS_INDEX_NAME).

Lemma isfile_dir (fs : filesystem) (p : string) :
  fs p = Some Dir -> os_path_isfile fs p = false.
Proof. unfold os_path_isfile. now intros ->. Qed.

Lemma exists_none (fs : filesystem) (p : string) :
  fs p = None -> os_path_exists fs p = false.
Proof. unfold os_path_exists. now intros ->. Qed.

Lemma exists_file (fs : filesystem) (p : string) (content : list byte) :
  fs p = Some (File content) ->
  os_path_exists fs p = true /\ os_path_isfile fs p = true.
Proof. unfold os_path_exists, os_path_isfile. now intros ->. Qed.

Lemma join_all_keys (path : string) (items header m : dict string json) :
  incl (dict_keys items) (dict_keys header) ->
  join_all path items header = Ok m -> dict_keys m = dict_keys header.
Proof.
  revert header; induction items as [|[k v] items IH]; intros header Hi;
    cbn [join_all].
  - now intros [= <-].
  - destruct v; try discriminate. intros H.
    assert (Hk : In k (dict_keys header)) by (apply Hi; now left).
    apply IH in H.
    + now rewrite H, dict_keys_set_in.
    + rewrite dict_keys_set_in by assumption.
      intros x Hx. apply Hi. now right.
Qed.

(** The weight map of an index, as the resolver reads it. *)
Definition index_weight_map (fs : filesystem) (path : string)
    (weight_map : dict string json) : Prop :=
  exists content index,
    fs (os_path_join path SAFE_WEIGHTS_INDEX_NAME) = Some (File content) /\
    json_scan_text content = Some index /\
    getitem (dictify index) "weight_map" = Ok (JObj weight_map).

Lemma index_weight_map_wf (fs : filesystem) (path : string)
    (weight_map : dict string json) :
  index_weight_map fs path weight_map -> dict_wf weight_map.
Proof.
  intros (content & index & _ & _ & H). unfold getitem in H.
  destruct (dictify index) as [| | | | |d] eqn:Ed; try discriminate.
  destruct (dict_get string_dec "weight_map" d) as [v|] eqn:Ev;
    try discriminate.
  injection H as ->. apply dict_get_in in Ev.
  destruct (dictify_member _ _ _ _ Ed Ev) as [v0 Hv].
  symmetry in Hv. now apply dictify_obj_wf in Hv.
Qed.

Lemma resolve_index (fs : filesystem) (path : string)
    (weight_map : dict string json) :
  os_path_isfile fs path = false ->
  os_path_exists fs (os_path_join path SAFE_WEIGHTS_NAME) = false ->
  index_weight_map fs path weight_map ->
  resolve fs path = join_all path weight_map weight_map.
Proof.
  intros H1 H2 (content & index & Hf & Hj & Hw).
  rewrite weights_of_index; try assumption.
  - unfold open_file, json_load. rewrite Hf. cbn [bind]. rewrite Hj.
    cbn [bind]. rewrite Hw. reflexivity.
  - unfold os_path_exists. now rewrite Hf.
Qed.

(** C8. Resolving a directory that holds neither the single-shard file
    nor the index raises the [ValueError] that the specification calls
    [CheckpointNotFound]; no mapping is returned. *)
Theorem missing_checkpoint_raises (fs : filesystem) (path : string) :
  fs path = Some Dir ->
  fs (os_path_join path SAFE_WEIGHTS_NAME) = None ->
  fs (os_path_join path SAFE_WEIGHTS_INDEX_NAME) = None ->
  resolve fs path =
    Raise (ValueError
             ("Could not find a safetensors weight or index file at " ++ path)%string) /\
  forall m, resolve fs path <> Ok m.
Proof.
  intros Hd Hs Hi.
  assert (E := weights_of_missing py json_scan_bytes json_scan_text
                 SAFE_WEIGHTS_NAME SAFE_WEIGHTS_INDEX_NAME fs path
                 (isfile_dir _ _ Hd) (exists_none _ _ Hs) (exists_none _ _ Hi)).
  split; [exact E|]. intros m. rewrite E. discriminate.
Qed.

Lemma single_file_cases (fs : filesystem) (file : string) :
  (exists d, dict_wf d /\
     forall location,
       single_file py json_scan_bytes fs file location =
       Ok (map (fun kv => (fst kv, located location (snd kv)))
             (dict_pop string_dec "__metadata__" d))) \/
  (exists e, forall location,
     single_file py json_scan_bytes fs file location = Raise e) \/
  (forall location, single_file py json_scan_bytes fs file location = Beyond).
Proof.
  unfold single_file.
  destruct (get_safetensors_header py json_scan_bytes fs file) as [j| |] eqn:E;
    cbn [bind]; [|right; left; eauto | right; right; auto].
  destruct (header_dictified _ _ _ _ _ E) as [j0 ->].
  destruct (dictify j0) as [| | | | |d] eqn:Ed; cbn [as_dict bind];
    try (right; left; eauto; fail).
  left. exists d. pose proof (dictify_obj_wf _ _ Ed) as Hwf.
  split; [exact Hwf|]. intros location.
  now rewrite (set_all_map _ _ Hwf), dict_pop_map.
Qed.

Lemma located_all_str (location : string) (d : dict string json) :
  forallb (fun kv => is_str (snd kv))
    (map (fun kv => (fst kv, located location (snd kv))) d) = true.
Proof. induction d as [|kv d IH]; cbn; [reflexivity | exact IH]. Qed.

(** The canonical branch: the file name joined to the directory, for
    every key of the header but the reserved one. *)
Lemma join_located (path name : string) (d : dict string json) :
  dict_wf d ->
  join_all path
    (map (fun kv => (fst kv, located name (snd kv))) d)
    (map (fun kv => (fst kv, located name (snd kv))) d) =
  Ok (map (fun kv => (fst kv, located (os_path_join path name) (snd kv))) d).
Proof.
  intros Hwf. rewrite join_all_map.
  - rewrite map_map. reflexivity.
  - unfold dict_wf. now rewrite dict_keys_map.
  - apply located_all_str.
Qed.

(** Joining a file name to a directory written without a final slash
    puts one slash between them. *)
Lemma os_path_join_slash (dir name : string) :
  dir <> EmptyString -> ends_with_sep dir = false ->
  (forall rest, name <> String "/" rest) ->
  os_path_join dir name = (dir ++ "/" ++ name)%string.
Proof.
  intros Hd He Hn. unfold os_path_join.
  destruct dir as [|d dir]; [now elim Hd|]. rewrite He.
  destruct name as [|c rest]; [reflexivity|].
  destruct c as [[] [] [] [] [] [] [] []]; try reflexivity.
  now elim (Hn rest).
Qed.

(** C5. Resolving the single-shard file of a directory by its own path
    and resolving the directory give the same outcome: the same mapping,
    or the same failure. *)
Theorem single_file_equivalence (fs : filesystem) (dir : string)
    (content : list byte) :
  fs dir = Some Dir ->
  fs (os_path_join dir SAFE_WEIGHTS_NAME) = Some (File content) ->
  resolve fs (os_path_join dir SAFE_WEIGHTS_NAME) = resolve fs dir.
Proof.
  intros Hd Hf. destruct (exists_file _ _ _ Hf) as [He Hi].
  rewrite weights_of_file by assumption.
  rewrite (weights_of_canonical _ _ _ _ _ fs dir (isfile_dir _ _ Hd) He).
  destruct (single_file_cases fs (os_path_join dir SAFE_WEIGHTS_NAME))
    as [(d & Hwf & E)|[(e & E)|E]]; rewrite !E; cbn [bind]; try reflexivity.
  symmetry. apply join_located. now apply dict_pop_wf.
Qed.

(** C4, as amended. For a directory that holds an index and no
    single-shard file, the index mapping names to file names, the resolver
    returns a mapping with the keys of the weight map, in its order, each
    sent to its file name joined to the directory. *)
Theorem index_resolution (fs : filesystem) (path : string)
    (weight_map : dict string json) :
  fs path = Some Dir ->
  fs (os_path_join path SAFE_WEIGHTS_NAME) = None ->
  index_weight_map fs path weight_map ->
  forallb (fun kv => is_str (snd kv)) weight_map = true ->
  exists m,
    resolve fs path = Ok m /\
    dict_keys m = dict_keys weight_map /\
    forall k f, dict_get string_dec k weight_map = Some (JStr f) ->
                dict_get string_dec k m = Some (JStr (os_path_join path f)).
Proof.
  intros Hd Hs Hw Hstr.
  exists (map (fun kv => (fst kv, joined path (snd kv))) weight_map).
  split; [|split].
  - rewrite (resolve_index fs path weight_map (isfile_dir _ _ Hd)
               (exists_none _ _ Hs) Hw).
    apply join_all_map; [|exact Hstr]. now apply (index_weight_map_wf fs path).
  - apply dict_keys_map.
  - intros k f Hk. now rewrite dict_get_map, Hk.
Qed.

(** C6, as amended. A mapping resolved from a single file, or from a
    directory through its single-shard file, has no key [__metadata__]. A
    mapping resolved through an index has the keys of the weight map of
    the index, whatever they are. *)
Theorem metadata_key_excluded (fs : filesystem) (path : string)
    (m : dict string json) :
  resolve fs path = Ok m ->
  (os_path_isfile fs path = true \/
   os_path_exists fs (os_path_join path SAFE_WEIGHTS_NAME) = true ->
   ~ In "__metadata__" (dict_keys m)) /\
  (os_path_isfile fs path = false ->
   os_path_exists fs (os_path_join path SAFE_WEIGHTS_NAME) = false ->
   exists weight_map,
     index_weight_map fs path weight_map /\
     dict_keys m = dict_keys weight_map).
Proof.
  intros H. split.
  - intros Hc. destruct (os_path_isfile fs path) eqn:H1.
    + rewrite weights_of_file in H by assumption.
      apply single_file_shape in H as (d & Hwf & ->).
      rewrite dict_keys_map. now apply dict_pop_absent.
    + destruct Hc as [Hc|Hc]; [discriminate|].
      rewrite weights_of_canonical in H by assumption.
      destruct (single_file py json_scan_bytes fs _ SAFE_WEIGHTS_NAME)
        as [h| |] eqn:E; cbn [bind] in H; try discriminate.
      apply join_all_keys in H; [|apply incl_refl]. rewrite H.
      apply single_file_shape in E as (d & Hwf & ->).
      rewrite dict_keys_map. now apply dict_pop_absent.
  - intros H1 H2.
    destruct (os_path_exists fs (os_path_join path SAFE_WEIGHTS_INDEX_NAME))
      eqn:H3; [|rewrite weights_of_missing in H by assumption; discriminate].
    rewrite weights_of_index in H by assumption.
    unfold open_file, json_load, index_weight_map in *.
    destruct (fs (os_path_join path SAFE_WEIGHTS_INDEX_NAME)) as [[content|]|];
      cbn [bind] in H; try discriminate.
    destruct (json_scan_text content) as [index|] eqn:Ej; cbn [bind] in H;
      try discriminate.
    destruct (getitem (dictify index) "weight_map") as [v| |] eqn:Eg;
      cbn [bind] in H; try discriminate.
    destruct v as [| | | | |wm]; cbn [as_dict bind] in H; try discriminate.
    exists wm. split.
    + exists content, index. repeat split; assumption.
    + apply join_all_keys in H; [exact H | apply incl_refl].
Qed.
End Resolver.

Definition sharded_index : string :=
  dq "{'metadata': {'total_size': 12}, 'weight_map': {'a': 'f1', 'b': 'f1', 'c': 'f2'}}".

Definition sharded_fs : filesystem :=
  fun p =>
    if String.eqb p "ckpt" then Some Dir
    else if String.eqb p "ckpt/model.safetensors.index.json"
    then Some (File (text_bytes sharded_index))
    else None.

(** A directory with both the single-shard file and an index. *)
Definition both_fs : filesystem :=
  fun p =>
    if String.eqb p "ckpt" then Some Dir
    else if String.eqb p "ckpt/model.safetensors" then Some (File one_tensor_file)
    else if String.eqb p "ckpt/model.safetensors.index.json"
    then Some (File (text_bytes sharded_index))
    else None.

(** An index whose weight map has the reserved key. *)
Definition reserved_fs : filesystem :=
  fun p =>
    if String.eqb p "ckpt" then Some Dir
    else if String.eqb p "ckpt/model.safetensors.index.json"
    then Some (File (text_bytes
           (dq "{'weight_map': {'__metadata__': 'f1', 'a': 'f1'}}")))
    else None.

Definition empty_fs : filesystem :=
  fun p => if String.eqb p "ckpt" then Some Dir else None.

Lemma missing_checkpoint_raises_witness :
  example_weights empty_fs "ckpt" =
    Raise (ValueError "Could not find a safetensors weight or index file at ckpt") /\
  forall m, example_weights empty_fs "ckpt" <> Ok m.
Proof.
  apply (missing_checkpoint_raises cpython json_scan_ascii json_scan_ascii
           WEIGHTS WEIGHTS_INDEX empty_fs "ckpt"); reflexivity.
Defined.

Lemma single_file_equivalence_witness :
  example_weights single_fs "ckpt/model.safetensors" =
  example_weights single_fs "ckpt".
Proof.
  apply (single_file_equivalence cpython json_scan_ascii json_scan_ascii
           WEIGHTS WEIGHTS_INDEX single_fs "ckpt" one_tensor_file);
    reflexivity.
Defined.

Lemma sharded_weight_map :
  index_weight_map json_scan_ascii WEIGHTS_INDEX sharded_fs "ckpt"
    [("a", JStr "f1"); ("b", JStr "f1"); ("c", JStr "f2")]%list.
Proof.
  exists (text_bytes sharded_index).
  exists (JObj [("metadata", JObj [("total_size", JNum "12")]);
                ("weight_map",
                 JObj [("a", JStr "f1"); ("b", JStr "f1"); ("c", JStr "f2")])]%list).
  repeat split; vm_compute; reflexivity.
Defined.

Lemma index_resolution_witness :
  exists m,
    example_weights sharded_fs "ckpt" = Ok m /\
    dict_keys m = ["a"; "b"; "c"]%list /\
    forall k f,
      dict_get string_dec k
        [("a", JStr "f1"); ("b", JStr "f1"); ("c", JStr "f2")]%list = Some (JStr f) ->
      dict_get string_dec k m = Some (JStr (os_path_join "ckpt" f)).
Proof.
  apply (index_resolution cpython json_scan_ascii json_scan_ascii WEIGHTS WEIGHTS_INDEX
           sharded_fs "ckpt" _ eq_refl eq_refl sharded_weight_map eq_refl).
Defined.

(** C4 as stated fails: the directory holds an index with the names [a],
    [b] and [c], and also the single-shard file, which is the one read. *)
Lemma index_shadowed_by_single_file :
  index_weight_map json_scan_ascii WEIGHTS_INDEX both_fs "ckpt"
    [("a", JStr "f1"); ("b", JStr "f1"); ("c", JStr "f2")]%list /\
  example_weights both_fs "ckpt" =
    Ok [("w", JStr "ckpt/model.safetensors")]%list.
Proof.
  split; [|vm_compute; reflexivity].
  exists (text_bytes sharded_index).
  exists (JObj [("metadata", JObj [("total_size", JNum "12")]);
                ("weight_map",
                 JObj [("a", JStr "f1"); ("b", JStr "f1"); ("c", JStr "f2")])]%list).
  repeat split; vm_compute; reflexivity.
Qed.

Lemma metadata_key_excluded_witness :
  (os_path_isfile single_fs "ckpt" = true \/
   os_path_exists single_fs (os_path_join "ckpt" WEIGHTS) = true ->
   ~ In "__metadata__" (dict_keys [("w", JStr "ckpt/model.safetensors")]%list)) /\
  (os_path_isfile single_fs "ckpt" = false ->
   os_path_exists single_fs (os_path_join "ckpt" WEIGHTS) = false ->
   exists weight_map,
     index_weight_map json_scan_ascii WEIGHTS_INDEX single_fs "ckpt" weight_map /\
     dict_keys [("w", JStr "ckpt/model.safetensors")]%list = dict_keys weight_map).
Proof.
  apply (metadata_key_excluded cpython json_scan_ascii json_scan_ascii
           WEIGHTS WEIGHTS_INDEX single_fs "ckpt").
  vm_compute. reflexivity.
Defined.

(** C6 as stated fails: the reserved key of an index is returned. *)
Lemma metadata_key_from_index :
  example_weights reserved_fs "ckpt" =
    Ok [("__metadata__", JStr "ckpt/f1"); ("a", JStr "ckpt/f1")]%list /\
  In "__metadata__"
    (dict_keys [("__metadata__", JStr "ckpt/f1"); ("a", JStr "ckpt/f1")]%list).
Proof. split; [vm_compute; reflexivity | cbn; tauto]. Qed.

(** ** The dense compressor *)

Lemma map_pair_id {A B : Type} (l : list (A * B)) :
  map (fun kv => (fst kv, snd kv)) l = l.
Proof.
  induction l as [|[a b] l IH]; cbn [map fst snd]; [reflexivity | now rewrite IH].
Qed.

(** C10. The dense compressor returns the state dict it is given, and
    decompressing from a state dict yields its entries in order; so
    decompressing what was compressed yields the entries of the input,
    from which the input is built again. *)
Theorem dense_identity (Tensor : Type) (state_dict : dict string Tensor) :
  DenseCompressor.compress state_dict = state_dict /\
  DenseCompressor.decompress_from_state_dict state_dict = state_dict /\
  DenseCompressor.decompress_from_state_dict
    (DenseCompressor.compress state_dict) = state_dict /\
  (dict_wf state_dict ->
   dict_of_pairs string_dec
     (DenseCompressor.decompress_from_state_dict
        (DenseCompressor.compress state_dict)) = state_dict).
Proof.
  unfold DenseCompressor.compress, DenseCompressor.decompress_from_state_dict.
  rewrite map_pair_id. repeat split.
  apply dict_of_pairs_items.
Qed.

Lemma dense_identity_witness :
  dict_of_pairs string_dec
    (DenseCompressor.decompress_from_state_dict
       (DenseCompressor.compress stacked)) = stacked.
Proof.
  apply (proj2 (proj2 (proj2 (dense_identity nat stacked)))).
  exact stacked_wf.
Defined.

(** * Further properties of the code *)

(** ** Names and suffixes *)

Ltac string_len H :=
  repeat first [rewrite length_append in H | progress cbn [String.length] in H].

Lemma plain_shift (p : string) :
  plain p = true -> (p ++ String newline "")%string <> ("." ++ p)%string.
Proof.
  destruct p as [|c p]; [discriminate|].
  cbn [plain]. intros H E. injection E as -> _. discriminate H.
Qed.

Lemma append_cancel_r (a b c : string) : (a ++ c)%string = (b ++ c)%string -> a = b.
Proof.
  intros H. apply append_inv_length in H; [tauto|].
  apply (f_equal String.length) in H. rewrite !length_append in H. lia.
Qed.

Lemma string_drop_succ (e : string) (c : ascii) (rest : string) :
  string_drop (S (String.length e)) (e ++ String c rest) = rest.
Proof. induction e as [|x e IH]; [apply string_drop_0 | exact IH]. Qed.

(** With a plain suffix, the only entity that can be read from a merged
    name is the one it was merged from. *)
Lemma merged_split_unique (e e' p t : string) :
  plain p = true -> at_end t = true ->
  merge_names e p = (e' ++ "." ++ p ++ t)%string -> e' = e /\ t = EmptyString.
Proof.
  unfold merge_names. intros Hp Ht E.
  destruct (at_end_cases _ Ht) as [->| ->].
  - rewrite append_empty_r in E. apply append_cancel_r in E. now split.
  - exfalso.
    assert (L : String.length e = S (String.length e')).
    { apply (f_equal String.length) in E. string_len E. lia. }
    rewrite <- (take_drop (String.length e') e), append_assoc in E.
    apply append_inv_length in E as [_ E];
      [|rewrite length_take; lia].
    assert (Ld : String.length (string_drop (String.length e') e) = 1)
      by (rewrite length_drop; lia).
    destruct (string_drop (String.length e') e) as [|c [|d r]];
      try discriminate Ld.
    cbn in E. injection E as -> E. now elim (plain_shift p Hp).
Qed.

(** X1. For a suffix without special characters and a name without
    newline, [match_param_name] never raises and is the literal test: it
    returns the entity exactly when the name is the entity, a dot and the
    suffix, and [None] exactly when the name has no such form. *)
Theorem plain_suffix_is_literal (full_name param_name : string) :
  plain param_name = true -> no_newline full_name = true ->
  (exists r, match_param_name full_name param_name = Ok r) /\
  (forall e, match_param_name full_name param_name = Ok (Some (PStr e)) <->
             full_name = merge_names e param_name) /\
  (match_param_name full_name param_name = Ok None <->
   ~ exists e, full_name = merge_names e param_name).
Proof.
  intros Hp Hf. split; [|split].
  - rewrite (match_param_name_plain _ _ Hp). eauto.
  - intros e. now apply match_param_name_literal.
  - now apply match_param_name_literal_none.
Qed.

Lemma plain_suffix_is_literal_witness :
  match_param_name "layer.weight" "weight" = Ok (Some (PStr "layer")) <->
  "layer.weight" = merge_names "layer" "weight".
Proof.
  exact (proj1 (proj2 (plain_suffix_is_literal "layer.weight" "weight"
           eq_refl eq_refl)) "layer").
Defined.

(** X2. A name merged from an entity without newline and a suffix without
    special characters is parsed back to that entity; the grouping loops
    take the result as a match unless the entity is empty. *)
Theorem merge_then_match (parent_name child_name : string) :
  plain child_name = true -> no_newline parent_name = true ->
  match_param_name (merge_names parent_name child_name) child_name =
    Ok (Some (PStr parent_name)) /\
  truthy (Some (PStr parent_name)) = negb (String.eqb parent_name "").
Proof.
  intros Hp He. split; [now apply match_merge_plain|].
  now destruct parent_name.
Qed.

Lemma merge_then_match_witness :
  match_param_name (merge_names "model.layers.0" "bitmask") "bitmask" =
    Ok (Some (PStr "model.layers.0")) /\
  truthy (Some (PStr "model.layers.0")) = negb (String.eqb "model.layers.0" "").
Proof. apply merge_then_match; reflexivity. Defined.

(** X3. A final newline after the suffix is overlooked: the merged name
    followed by a newline is parsed to the same entity. *)
Theorem final_newline_is_overlooked (parent_name child_name : string) :
  plain child_name = true -> no_newline parent_name = true ->
  match_param_name
    (merge_names parent_name child_name ++ String newline "") child_name =
  Ok (Some (PStr parent_name)).
Proof.
  intros Hp He. rewrite (match_param_name_plain _ _ Hp). unfold merge_names.
  rewrite !append_assoc.
  rewrite (longest_split_complete child_name _ _ (String.length parent_name)).
  - now rewrite string_take_append.
  - now apply run_any_prefix.
  - rewrite string_drop_append. unfold tail_matches.
    assert (E : strip_prefix (String "." child_name)
                  ("." ++ child_name ++ String newline "") = Some (String newline ""))
      by now apply strip_prefix_spec.
    now rewrite E.
  - intros m' [Hlo Hhi]. unfold tail_matches.
    destruct (strip_prefix _ _) as [t|] eqn:E; [|reflexivity].
    destruct (at_end t) eqn:Et; [exfalso | reflexivity].
    apply strip_prefix_spec in E.
    assert (L := f_equal String.length E).
    rewrite length_drop in L.
    change (String "." child_name ++ t)%string
      with (String "." (child_name ++ t)) in L.
    string_len L.
    assert (m' = S (String.length parent_name)) as -> by lia.
    assert (t = EmptyString) as -> by (destruct t; [reflexivity | simpl in L; lia]).
    change ("." ++ child_name ++ String newline "")%string
      with (String "." (child_name ++ String newline "")) in E.
    rewrite string_drop_succ in E. cbn in E. rewrite append_empty_r in E.
    now elim (plain_shift child_name Hp).
Qed.

Lemma final_newline_is_overlooked_witness :
  match_param_name (merge_names "layer" "shape" ++ String newline "") "shape" =
  Ok (Some (PStr "layer")).
Proof. apply final_newline_is_overlooked; reflexivity. Defined.

(** X4. A name merged from an entity that has a newline is not parsed
    back, even with a suffix without special characters: the result is
    [None]. *)
Theorem newline_entity_is_lost (parent_name child_name : string) :
  plain child_name = true -> no_newline parent_name = false ->
  match_param_name (merge_names parent_name child_name) child_name = Ok None.
Proof.
  intros Hp He.
  destruct (match_param_name (merge_names parent_name child_name) child_name)
    as [[r|]| |] eqn:E; try reflexivity;
    try (rewrite (match_param_name_plain _ _ Hp) in E; discriminate E).
  destruct (match_param_name_plain_sound _ _ _ Hp E)
    as (e' & t & _ & Es & Ht & Hn).
  destruct (merged_split_unique _ _ _ _ Hp Ht Es) as [-> _].
  rewrite Hn in He. discriminate.
Qed.

Lemma newline_entity_is_lost_witness :
  match_param_name
    (merge_names (String "a" (String newline "b")) "shape") "shape" = Ok None.
Proof. apply newline_entity_is_lost; reflexivity. Defined.

(** X5. A suffix with a closing parenthesis after plain characters makes
    [match_param_name] raise [re.error] for every name, and so does a
    suffix made of plain characters around one opening parenthesis. *)
Theorem unbalanced_suffix_raises (full_name s rest : string) :
  plain s = true ->
  match_param_name full_name (s ++ ")" ++ rest) =
    Raise (ReError "unbalanced parenthesis") /\
  (plain rest = true ->
   match_param_name full_name (s ++ "(" ++ rest) =
     Raise (ReError "missing ), unterminated subpattern")).
Proof.
  intros Hs. unfold match_param_name, re_findall_first, re_compile. split.
  - rewrite parse_prefix, !append_assoc, (parse_plain _ _ _ Hs). reflexivity.
  - intros Hr.
    rewrite parse_prefix, !append_assoc, (parse_plain _ _ _ Hs).
    change ("(" ++ rest ++ "$")%string with (String "(" (rest ++ "$")).
    destruct rest as [|c rest].
    + reflexivity.
    + cbn [plain] in Hr. apply andb_prop in Hr as [Hc Hr].
      apply negb_true_iff in Hc.
      assert (Hq : c <> "?"%char) by (intros ->; discriminate Hc).
      cbn [parse].
      change (String c rest ++ "$")%string with (String c (rest ++ "$")).
      destruct c as [[] [] [] [] [] [] [] []]; try (now elim Hq);
        try discriminate Hc;
        (rewrite parse_plain_char by reflexivity;
         rewrite (parse_plain _ _ _ Hr); reflexivity).
Qed.

Lemma unbalanced_suffix_raises_witness :
  match_param_name "layer.w)" ("w" ++ ")" ++ "") =
    Raise (ReError "unbalanced parenthesis") /\
  (plain "" = true ->
   match_param_name "layer.w)" ("w" ++ "(" ++ "") =
     Raise (ReError "missing ), unterminated subpattern")).
Proof. apply unbalanced_suffix_raises. reflexivity. Defined.

(** ** More on the grouping loops *)

Section GroupingMore.
Context {V : Type}.

Local Open Scope list_scope.

(** Two runs of the outer loop agree when they end the same way with the
    same nested mapping. *)
Definition same_nested (r1 r2 : result (nested_mapping V * dict string V)) : Prop :=
  match r1, r2 with
  | Ok a, Ok b => fst a = fst b
  | Raise e1, Raise e2 => e1 = e2
  | Beyond, Beyond => True
  | _, _ => False
  end.

Lemma nest_keys_flag (state_dict : dict string V) (params : list string)
    (keys : list string) (acc1 acc2 : nested_mapping V * dict string V) :
  fst acc1 = fst acc2 ->
  same_nested (nest_keys state_dict params false keys acc1)
              (nest_keys state_dict params true keys acc2).
Proof.
  revert acc1 acc2; induction keys as [|k keys IH]; intros acc1 acc2 E;
    cbn [nest_keys]; [exact E|].
  destruct (dict_get string_dec k state_dict) as [v|]; [|reflexivity].
  unfold nest_entry. rewrite E.
  destruct (nest_params k v params (fst acc2) false) as [[n m]| |];
    cbn [bind]; try reflexivity.
  cbn [andb]. destruct (negb m); cbn [bind]; now apply IH.
Qed.

Lemma flag_runs (state_dict : dict string V) (params : list string) :
  (forall nested,
     get_nested_mappings_from_state_dict state_dict params false =
       Ok (NestedOnly nested) <->
     exists unmatched,
       get_nested_mappings_from_state_dict state_dict params true =
       Ok (NestedAndUnmatched nested unmatched)) /\
  (forall e,
     get_nested_mappings_from_state_dict state_dict params false = Raise e <->
     get_nested_mappings_from_state_dict state_dict params true = Raise e).
Proof.
  unfold get_nested_mappings_from_state_dict.
  pose proof (nest_keys_flag state_dict params (dict_keys state_dict)
                ([], []) ([], []) eq_refl) as H.
  destruct (nest_keys state_dict params false _ _) as [a| |];
    destruct (nest_keys state_dict params true _ _) as [b| |];
    cbn [same_nested bind grouped_of] in *; try contradiction.
  - split.
    + intros nested. split.
      * intros [= <-]. exists (snd b). now rewrite H.
      * intros [u [= <- _]]. now rewrite H.
    + intros e. split; discriminate.
  - subst. split.
    + intros nested. split; [discriminate | intros [u Hu]; discriminate].
    + intros e'. tauto.
  - split.
    + intros nested. split; [discriminate | intros [u Hu]; discriminate].
    + intros e. split; discriminate.
Qed.

(** X6. The flag [return_unmatched_params] does not change the nested
    mapping: without it the grouping returns the nested mapping that it
    returns beside the unmatched one with it, and it raises the same
    exception. *)
Theorem nested_mapping_ignores_flag (state_dict : dict string V)
    (params : list string) :
  (forall nested,
     get_nested_mappings_from_state_dict state_dict params false =
       Ok (NestedOnly nested) <->
     exists unmatched,
       get_nested_mappings_from_state_dict state_dict params true =
       Ok (NestedAndUnmatched nested unmatched)) /\
  (forall e,
     get_nested_mappings_from_state_dict state_dict params false = Raise e <->
     get_nested_mappings_from_state_dict state_dict params true = Raise e).
Proof. exact (flag_runs state_dict params). Qed.

Lemma store_items_no_params (items : list (string * V)) (nested : nested_mapping V) :
  store_items [] items nested = nested.
Proof.
  unfold store_items. revert nested.
  induction items as [|kv items IH]; intros nested; cbn [fold_left];
    [reflexivity | apply IH].
Qed.

Lemma unmatched_items_no_params (items : list (string * V)) :
  unmatched_items [] items = items.
Proof.
  unfold unmatched_items.
  induction items as [|kv items IH]; cbn [filter]; [reflexivity|].
  change (negb (is_matched [] (fst kv))) with true. cbv iota.
  now rewrite IH.
Qed.

(** X7. With no suffix to look for, as with the parameter names of the
    dense compressor, nothing is nested and the unmatched mapping is the
    whole input. *)
Theorem no_suffix_nests_nothing (state_dict : dict string V) :
  dict_wf state_dict ->
  DenseCompressor.compression_param_names = [] /\
  get_nested_mappings_from_state_dict state_dict
    DenseCompressor.compression_param_names true =
    Ok (NestedAndUnmatched [] state_dict) /\
  get_nested_mappings_from_state_dict state_dict
    DenseCompressor.compression_param_names false = Ok (NestedOnly []).
Proof.
  intros Hwf. split; [reflexivity|].
  unfold DenseCompressor.compression_param_names.
  destruct (from_state_dict_total state_dict [] Hwf eq_refl) as (n & u & E).
  destruct (from_state_dict_result _ _ _ _ Hwf E) as [Hn Hu].
  rewrite store_items_no_params in Hn. rewrite unmatched_items_no_params in Hu.
  subst. split; [exact E|].
  apply (proj1 (flag_runs state_dict [])). eauto.
Qed.

Lemma slots_of_app (params1 params2 : list string) (k : string) :
  slots_of (params1 ++ params2) k = slots_of params1 k ++ slots_of params2 k.
Proof. unfold slots_of. apply flat_map_app. Qed.

Lemma is_matched_app (params1 params2 : list string) (k : string) :
  is_matched (params1 ++ params2) k =
  is_matched params1 k || is_matched params2 k.
Proof.
  unfold is_matched. rewrite slots_of_app.
  destruct (slots_of params1 k); [|reflexivity].
  now destruct (slots_of params2 k).
Qed.

Lemma filter_filter {A : Type} (f g : A -> bool) (l : list A) :
  filter f (filter g l) = filter (fun x => g x && f x) l.
Proof.
  induction l as [|x l IH]; cbn [filter]; [reflexivity|].
  destruct (g x); cbn [filter andb]; [|exact IH].
  destruct (f x); now rewrite IH.
Qed.

(** X8. Grouping in two passes, the second on the unmatched mapping of
    the first, leaves unmatched exactly the entries that match no suffix of
    either pass, which is what one pass with both lists of suffixes
    leaves whenever it returns. *)
Theorem two_passes_compose (state_dict : dict string V)
    (params1 params2 : list string)
    (nested1 nested2 : nested_mapping V) (unmatched1 unmatched2 : dict string V) :
  dict_wf state_dict ->
  get_nested_mappings_from_state_dict state_dict params1 true =
    Ok (NestedAndUnmatched nested1 unmatched1) ->
  get_nested_mappings_from_state_dict unmatched1 params2 true =
    Ok (NestedAndUnmatched nested2 unmatched2) ->
  (forall k v, dict_get string_dec k unmatched2 = Some v <->
     dict_get string_dec k state_dict = Some v /\
     is_matched params1 k = false /\ is_matched params2 k = false) /\
  (forall nested unmatched,
     get_nested_mappings_from_state_dict state_dict (params1 ++ params2) true =
       Ok (NestedAndUnmatched nested unmatched) ->
     unmatched = unmatched2).
Proof.
  intros Hwf E1 E2.
  destruct (from_state_dict_result _ _ _ _ Hwf E1) as [_ ->].
  pose proof (unmatched_items_wf params1 state_dict Hwf) as Hwf1.
  destruct (from_state_dict_result _ _ _ _ Hwf1 E2) as [_ ->].
  pose proof (unmatched_items_wf params2 _ Hwf1) as Hwf2.
  split.
  - intros k v. split.
    + intros H. apply dict_get_in in H. unfold unmatched_items in H.
      apply filter_In in H as [H H2]. apply filter_In in H as [H H1].
      cbn [fst] in *. apply negb_true_iff in H1, H2.
      split; [now apply in_dict_get | now split].
    + intros (H & H1 & H2). apply in_dict_get; [exact Hwf2|].
      apply dict_get_in in H. unfold unmatched_items.
      apply filter_In. split; [apply filter_In; split; [exact H|]|];
        cbn [fst]; now apply negb_true_iff.
  - intros nested unmatched E.
    destruct (from_state_dict_result _ _ _ _ Hwf E) as [_ ->].
    unfold unmatched_items. rewrite filter_filter. apply filter_ext.
    intros [k v]. cbn [fst]. rewrite is_matched_app. now rewrite negb_orb.
Qed.

(** A suffix that compiles gives an outcome at every name. *)
Lemma compiled_suffix_returns (key p : string) (r : re * nat) :
  re_compile ("^(.*)\." ++ p ++ "$") = Ok r ->
  exists m, match_param_name key p = Ok m.
Proof.
  intros H. unfold match_param_name, re_findall_first. rewrite H.
  destruct r as [r groups]. cbn [bind]. eauto.
Qed.

(** The inner loop stops at the first suffix that does not compile. *)
Lemma nest_params_raises (key : string) (value : V)
    (pre : list string) (q : string) (post : list string)
    (nested : nested_mapping V) (matched : bool) (e : exn) :
  (forall p, In p pre -> exists r, re_compile ("^(.*)\." ++ p ++ "$") = Ok r) ->
  re_compile ("^(.*)\." ++ q ++ "$") = Raise e ->
  nest_params key value (pre ++ q :: post)%list nested matched = Raise e.
Proof.
  intros Hpre Hq. revert nested matched.
  induction pre as [|p pre IH]; intros nested matched; cbn [app nest_params].
  - unfold match_param_name, re_findall_first. now rewrite Hq.
  - destruct (Hpre p (or_introl eq_refl)) as [r Hr].
    destruct (compiled_suffix_returns key p r Hr) as [m ->]. cbn [bind].
    assert (IH' := IH (fun p' Hp' => Hpre p' (or_intror Hp'))).
    destruct (truthy m); [destruct m|]; apply IH'.
Qed.

(** X9. The first suffix whose pattern does not compile, the suffixes
    before it compiling, makes the grouping raise its error as soon as
    there is one name to look at, whatever the suffixes after it; on an
    empty state dict no suffix is compiled and the empty mappings are
    returned. *)
Theorem bad_suffix_raises (k : string) (v : V) (rest : dict string V)
    (pre : list string) (q : string) (post : list string)
    (ret : bool) (e : exn) :
  (forall p, In p pre -> exists r, re_compile ("^(.*)\." ++ p ++ "$") = Ok r) ->
  re_compile ("^(.*)\." ++ q ++ "$") = Raise e ->
  get_nested_mappings_from_state_dict ((k, v) :: rest)
    (pre ++ q :: post)%list ret = Raise e /\
  get_nested_mappings_from_state_dict (@nil (string * V))
    (pre ++ q :: post)%list ret = Ok (grouped_of ret ([], [])).
Proof.
  intros Hpre H. split; [|reflexivity].
  unfold get_nested_mappings_from_state_dict.
  cbn [dict_keys map fst nest_keys dict_get].
  destruct (string_dec k k) as [_|Hn]; [|now elim Hn].
  unfold nest_entry. cbn [fst].
  now rewrite (nest_params_raises k v pre q post _ _ e Hpre H).
Qed.
End GroupingMore.

Lemma bad_suffix_raises_witness :
  get_nested_mappings_from_state_dict [("layer.w", 1)]%list
    ["scale"; "w)"; "a**"]%list true =
    Raise (ReError "unbalanced parenthesis") /\
  get_nested_mappings_from_state_dict (@nil (string * nat))
    ["scale"; "w)"; "a**"]%list true =
    Ok (grouped_of true ([], [])%list).
Proof.
  apply (bad_suffix_raises "layer.w" 1 []%list ["scale"]%list "w)"
           ["a**"]%list true (ReError "unbalanced parenthesis")).
  - intros p [<-|[]]. eexists. vm_compute. reflexivity.
  - vm_compute. reflexivity.
Defined.

Lemma no_suffix_nests_nothing_witness :
  DenseCompressor.compression_param_names = []%list /\
  get_nested_mappings_from_state_dict stacked
    DenseCompressor.compression_param_names true =
    Ok (NestedAndUnmatched []%list stacked) /\
  get_nested_mappings_from_state_dict stacked
    DenseCompressor.compression_param_names false = Ok (NestedOnly []%list).
Proof. apply no_suffix_nests_nothing. exact stacked_wf. Defined.

Lemma two_passes_compose_witness :
  (forall k v,
     dict_get string_dec k (@nil (string * nat)) = Some v <->
     dict_get string_dec k stacked = Some v /\
     is_matched ["weight_scale"; "zero_point"]%list k = false /\
     is_matched ["bitmask"; "shape"]%list k = false) /\
  (forall nested unmatched,
     get_nested_mappings_from_state_dict stacked
       (["weight_scale"; "zero_point"] ++ ["bitmask"; "shape"])%list true =
       Ok (NestedAndUnmatched nested unmatched) ->
     unmatched = []%list).
Proof.
  apply (two_passes_compose stacked
           ["weight_scale"; "zero_point"]%list ["bitmask"; "shape"]%list
           [(PStr "layer", [("weight_scale", 1); ("zero_point", 2)])]%list
           [(PStr "layer", [("bitmask", 3); ("shape", 4)])]%list
           [("layer.bitmask", 3); ("layer.shape", 4)]%list []%list).
  - exact stacked_wf.
  - vm_compute. reflexivity.
  - vm_compute. reflexivity.
Defined.

Section NestedShape.
Context {V : Type}.

Local Open Scope list_scope.

(** What every entry of a nested mapping satisfies: its entity was taken
    as a match, and its inner mapping is not empty and has distinct keys,
    all of them configured suffixes. *)
Definition entry_ok (params : list string)
    (entry : pyval * dict string V) : Prop :=
  truthy (Some (fst entry)) = true /\
  snd entry <> [] /\
  dict_wf (snd entry) /\
  incl (dict_keys (snd entry)) params.

Definition nested_ok (params : list string) (nested : nested_mapping V) : Prop :=
  dict_wf nested /\ forall entry, In entry nested -> entry_ok params entry.

Lemma dict_set_not_nil (p : string) (v : V) (inner : dict string V) :
  dict_set string_dec p v inner <> [].
Proof.
  destruct inner as [|[k0 v0] inner]; cbn [dict_set]; [discriminate|].
  destruct (string_dec p k0); discriminate.
Qed.

Lemma dict_keys_set_incl (p : string) (v : V) (inner : dict string V) :
  incl (dict_keys (dict_set string_dec p v inner)) (p :: dict_keys inner).
Proof.
  induction inner as [|[k0 v0] inner IH]; cbn [dict_set dict_keys map fst].
  - apply incl_refl.
  - destruct (string_dec p k0) as [->|]; cbn [map fst].
    + apply incl_tl, incl_refl.
    + intros x [<-|Hx]; [right; now left|].
      destruct (IH x Hx) as [<-|?]; [now left | right; now right].
Qed.

Lemma nested_store_ok (params : list string) (mp : pyval) (p : string)
    (v : V) (nested : nested_mapping V) :
  truthy (Some mp) = true -> In p params ->
  nested_ok params nested -> nested_ok params (nested_store mp p v nested).
Proof.
  intros Ht Hp [Hwf Hall]. rewrite nested_store_eq.
  destruct (dict_get pyval_dec mp nested) as [inner|] eqn:E.
  - split; [now apply dict_set_wf|].
    intros [mp' inner'] Hin. apply dict_set_in in Hin as [[= -> ->]|Hin];
      [|now apply Hall].
    apply dict_get_in in E. destruct (Hall _ E) as (_ & _ & Hi & Hk).
    cbn [fst snd] in *. repeat split.
    + exact Ht.
    + apply dict_set_not_nil.
    + now apply dict_set_wf.
    + intros x Hx. apply dict_keys_set_incl in Hx as [<-|Hx]; auto.
  - apply dict_get_none in E.
    rewrite <- (dict_set_fresh pyval_dec mp [(p, v)] nested E).
    split; [now apply dict_set_wf|].
    intros [mp' inner'] Hin. apply dict_set_in in Hin as [[= -> ->]|Hin];
      [|now apply Hall].
    cbn [fst snd]. repeat split.
    + exact Ht.
    + discriminate.
    + repeat constructor. intros [].
    + intros x [<-|[]]. exact Hp.
Qed.

Lemma store_items_ok (params : list string) (items : list (string * V))
    (nested : nested_mapping V) :
  nested_ok params nested -> nested_ok params (store_items params items nested).
Proof.
  unfold store_items. revert nested.
  induction items as [|[k v] items IH]; intros nested H; cbn [fold_left fst snd];
    [exact H|].
  apply IH. unfold store_all.
  assert (G : forall slots n,
            incl slots (slots_of params k) -> nested_ok params n ->
            nested_ok params
              (fold_left (fun n sl => nested_store (fst sl) (snd sl) v n) slots n)).
  { induction slots as [|[mp p] slots IHs]; intros n Hi Hn; cbn [fold_left fst snd];
      [exact Hn|].
    apply IHs; [intros x Hx; apply Hi; now right|].
    destruct (proj1 (in_slots_of params k mp p) (Hi _ (or_introl eq_refl)))
      as (Hp & _ & Ht).
    now apply nested_store_ok. }
  apply G; [apply incl_refl | exact H].
Qed.

(** X10. The nested mapping returned by the grouping is well formed: its
    entities are pairwise distinct and none is empty or [None], and the
    inner mapping of each is not empty and has pairwise distinct keys,
    all of them among the suffixes asked for. *)
Theorem nested_mapping_shape (state_dict : dict string V)
    (params : list string) (nested : nested_mapping V)
    (unmatched : dict string V) :
  dict_wf state_dict ->
  get_nested_mappings_from_state_dict state_dict params true =
    Ok (NestedAndUnmatched nested unmatched) ->
  dict_wf nested /\
  forall module_path inner,
    In (module_path, inner) nested ->
    truthy (Some module_path) = true /\
    inner <> [] /\
    dict_wf inner /\
    forall param_name, In param_name (dict_keys inner) -> In param_name params.
Proof.
  intros Hwf E. destruct (from_state_dict_result _ _ _ _ Hwf E) as [-> _].
  assert (H0 : nested_ok params (@nil (pyval * dict string V))).
  { split; [constructor | intros ? []]. }
  destruct (store_items_ok params state_dict [] H0) as [Hn Hall].
  split; [exact Hn|]. intros mp inner Hin.
  destruct (Hall _ Hin) as (Ht & Hne & Hi & Hk). cbn [fst snd] in *.
  repeat split; auto.
Qed.

(** X11. The last name of the input wins: every slot that it matches
    holds its value in the nested mapping, whatever the names before it
    stored there. *)
Theorem last_name_wins (items : dict string V) (k : string) (v : V)
    (params : list string) (nested : nested_mapping V)
    (unmatched : dict string V) :
  dict_wf (items ++ [(k, v)]) ->
  get_nested_mappings_from_state_dict (items ++ [(k, v)]) params true =
    Ok (NestedAndUnmatched nested unmatched) ->
  forall module_path param_name,
    In param_name params ->
    match_param_name k param_name = Ok (Some module_path) ->
    truthy (Some module_path) = true ->
    slot_get module_path param_name nested = Some v.
Proof.
  intros Hwf E mp p Hp Hm Ht.
  destruct (from_state_dict_result _ _ _ _ Hwf E) as [-> _].
  unfold store_items. rewrite fold_left_app. cbn [fold_left fst snd].
  apply store_all_hit. apply in_slots_of. auto.
Qed.
End NestedShape.

Lemma nested_mapping_shape_witness :
  dict_wf [(PStr "layer", [("weight_scale", 1); ("zero_point", 2)])]%list /\
  forall module_path inner,
    In (module_path, inner)
       [(PStr "layer", [("weight_scale", 1); ("zero_point", 2)])]%list ->
    truthy (Some module_path) = true /\
    inner <> []%list /\
    dict_wf inner /\
    forall param_name,
      In param_name (dict_keys inner) ->
      In param_name ["weight_scale"; "zero_point"]%list.
Proof.
  apply (nested_mapping_shape stacked ["weight_scale"; "zero_point"]%list _
           [("layer.bitmask", 3); ("layer.shape", 4)]%list stacked_wf).
  vm_compute. reflexivity.
Defined.

Lemma last_name_wins_witness :
  slot_get (PStr "x") "s" [(PStr "x", [("s", 2)])]%list = Some 2.
Proof.
  apply (last_name_wins [("x.s", 1)]%list
           (String.append "x.s" (String newline "")) 2 ["s"]%list _ []%list).
  - unfold dict_wf; cbn [dict_keys map fst app].
    repeat constructor; cbn [In]; intuition discriminate.
  - vm_compute. reflexivity.
  - now left.
  - vm_compute. reflexivity.
  - reflexivity.
Defined.

(** ** More on the header reader *)

Lemma le_encode_length (width : nat) (x : N) :
  length (le_encode width x) = width.
Proof.
  revert x; induction width as [|w IH]; intros x; cbn [le_encode]; [reflexivity|].
  destruct (Byte.of_N (x mod 256)) as [b|] eqn:E.
  - cbn [length]. now rewrite IH.
  - apply Byte.of_N_None_iff in E.
    pose proof (N.mod_upper_bound x 256). lia.
Qed.

Lemma le_encode_decode (width : nat) (x : N) :
  le_bytes_to_N (le_encode width x) = (x mod 256 ^ N.of_nat width)%N.
Proof.
  revert x; induction width as [|w IH]; intros x.
  - cbn. now rewrite N.mod_1_r.
  - cbn [le_encode].
    destruct (Byte.of_N (x mod 256)) as [b|] eqn:E.
    + apply Byte.to_of_N in E. cbn [le_bytes_to_N fold_right].
      change (fold_right _ 0%N (le_encode w (x / 256)))
        with (le_bytes_to_N (le_encode w (x / 256))).
      rewrite IH, E, Nat2N.inj_succ, N.pow_succ_r'.
      now rewrite N.Div0.mod_mul_r.
    + apply Byte.of_N_None_iff in E.
      pose proof (N.mod_upper_bound x 256). lia.
Qed.

Lemma length_list_byte_of_string (s : string) :
  length (list_byte_of_string s) = String.length s.
Proof.
  unfold list_byte_of_string. rewrite length_map.
  induction s as [|c s IH]; cbn [list_ascii_of_string length String.length];
    [reflexivity | now rewrite IH].
Qed.

Section HeaderMore.
Variable py : interpreter.
Variable json_scan_bytes : list byte -> option json.

Local Open Scope list_scope.

(** X12. The header reader looks at the first 8 bytes and at the [L]
    bytes after them, [L] being the number they encode, and at nothing
    else: two files that agree on those bytes give the same outcome. *)
Theorem header_ignores_payload (fs1 fs2 : filesystem) (path1 path2 : string)
    (content1 content2 : list byte) :
  fs1 path1 = Some (File content1) ->
  fs2 path2 = Some (File content2) ->
  firstn (8 + N.to_nat (le_bytes_to_N (firstn 8 content1))) content1 =
  firstn (8 + N.to_nat (le_bytes_to_N (firstn 8 content1))) content2 ->
  get_safetensors_header py json_scan_bytes fs1 path1 =
  get_safetensors_header py json_scan_bytes fs2 path2.
Proof.
  intros H1 H2 E. unfold get_safetensors_header, open_file.
  rewrite H1, H2. cbn [bind].
  set (L := N.to_nat (le_bytes_to_N (firstn 8 content1))) in *.
  assert (E8 : firstn 8 content1 = firstn 8 content2).
  { apply (f_equal (firstn 8)) in E. rewrite !firstn_firstn in E.
    now replace (Nat.min 8 (8 + L)) with 8 in E by lia. }
  rewrite <- E8. destruct (struct_unpack_Q (firstn 8 content1)) as [n| |] eqn:En;
    cbn [bind]; try reflexivity.
  assert (n = le_bytes_to_N (firstn 8 content1)) as ->.
  { unfold struct_unpack_Q in En.
    destruct (Nat.eqb _ 8); now inversion En. }
  unfold file_read.
  destruct (read_refusal py _); cbn [bind]; [reflexivity|].
  fold L. now rewrite !firstn_skipn_comm, E.
Qed.

(** X13. A file laid out as the format says (the length of the header on
    8 bytes, least significant first, then the header, then the tensor
    data) is read back to the decoding of its header, whatever the
    tensor data, when the interpreter grants a read of the header's
    length; when it does not, the reader raises what the read raises. *)
Theorem header_round_trip (fs : filesystem) (path header : string)
    (payload : list byte) :
  fs path = Some (File (safetensors_bytes header payload)) ->
  (N.of_nat (String.length header) < 2 ^ 64)%N ->
  get_safetensors_header py json_scan_bytes fs path =
  match read_refusal py (N.of_nat (String.length header)) with
  | Some e => Raise e
  | None => json_loads json_scan_bytes (list_byte_of_string header)
  end.
Proof.
  intros Hf Hlen. unfold get_safetensors_header, open_file.
  rewrite Hf. cbn [bind]. unfold safetensors_bytes.
  set (prologue := le_encode 8 (N.of_nat (String.length header))).
  assert (Lp : length prologue = 8) by apply le_encode_length.
  rewrite firstn_app, Lp, Nat.sub_diag, firstn_O, app_nil_r.
  rewrite firstn_all2 by lia.
  unfold struct_unpack_Q. rewrite Lp. cbn [Nat.eqb bind].
  unfold prologue. rewrite le_encode_decode.
  change (256 ^ N.of_nat 8)%N with (2 ^ 64)%N.
  rewrite N.mod_small by exact Hlen.
  unfold file_read.
  destruct (read_refusal py _); cbn [bind]; [reflexivity|].
  rewrite Nat2N.id.
  fold prologue. rewrite skipn_app, Lp, Nat.sub_diag, skipn_O.
  rewrite skipn_all2 by lia. cbn [app].
  rewrite firstn_app, length_list_byte_of_string, Nat.sub_diag, firstn_O,
    app_nil_r.
  now rewrite firstn_all2 by (rewrite length_list_byte_of_string; lia).
Qed.
End HeaderMore.

Lemma header_ignores_payload_witness :
  example_header single_fs "ckpt/model.safetensors" =
  example_header
    (fun p => if String.eqb p "other" then Some (File (safetensors_bytes one_tensor []))
              else None)
    "other".
Proof.
  apply (header_ignores_payload cpython json_scan_ascii single_fs _
           "ckpt/model.safetensors" "other" one_tensor_file
           (safetensors_bytes one_tensor [])); reflexivity.
Defined.

Lemma header_round_trip_witness :
  example_header single_fs "ckpt/model.safetensors" =
  json_loads json_scan_ascii (list_byte_of_string one_tensor).
Proof.
  exact (header_round_trip cpython json_scan_ascii single_fs
           "ckpt/model.safetensors" one_tensor
           ["000"; "000"; "128"; "063"]%byte%list eq_refl eq_refl).
Defined.

(** ** More on the resolver *)

Section ResolverMore.
Variable py : interpreter.
Variable json_scan_bytes : list byte -> option json.
Variable json_scan_text : list byte -> option json.
Variable SAFE_WEIGHTS_NAME : string.
Variable SAFE_WEIGHTS_INDEX_NAME : string.

Local Open Scope list_scope.

#[local] Abbreviation resolve :=
  (get_weight_mappings py json_scan_bytes json_scan_text
     SAFE_WEIGHTS_NAME SAFE_WEIGHTS_INDEX_NAME).
#[local] Abbreviation weight_map_of :=
  (index_weight_map json_scan_text SAFE_WEIGHTS_INDEX_NAME).

(** X14. Resolving a single file follows its header: every key of the
    header but [__metadata__], in the order of the header, is sent to the
    path of the file itself; a header that is not an object raises
    [AttributeError]; a failure to read the header is passed on. *)
Theorem single_file_mapping (fs : filesystem) (path : string) :
  os_path_isfile fs path = true ->
  (forall header,
     get_safetensors_header py json_scan_bytes fs path = Ok (JObj header) ->
     resolve fs path =
     Ok (map (fun kv => (fst kv, JStr path))
           (dict_pop string_dec "__metadata__" header))) /\
  (forall j,
     get_safetensors_header py json_scan_bytes fs path = Ok j ->
     (forall header, j <> JObj header) ->
     resolve fs path = Raise AttributeError) /\
  (forall e,
     get_safetensors_header py json_scan_bytes fs path = Raise e ->
     resolve fs path = Raise e).
Proof.
  intros Hf. rewrite weights_of_file by assumption. unfold single_file.
  split; [|split].
  - intros header H. rewrite H. cbn [bind as_dict].
    destruct (header_dictified _ _ _ _ _ H) as [j0 Hj]. symmetry in Hj.
    apply dictify_obj_wf in Hj.
    now rewrite (set_all_map _ _ Hj), dict_pop_map.
  - intros j H Hn. rewrite H. cbn [bind].
    destruct j; try reflexivity. now elim (Hn members).
  - intros e H. now rewrite H.
Qed.

Lemma join_all_not_str (path : string) (items header : dict string json) :
  forallb (fun kv => is_str (snd kv)) items = false ->
  join_all path items header = Raise TypeError.
Proof.
  revert header; induction items as [|[k v] items IH]; intros header H;
    cbn [forallb snd] in H; [discriminate|].
  cbn [join_all]. destruct v; try reflexivity.
  cbn [is_str andb] in H. now apply IH.
Qed.

(** X15. An index that cannot be used makes the resolver raise and
    return no mapping: a decoding error when it is not JSON, [KeyError]
    when it is an object without [weight_map], [TypeError] when one value
    of the weight map is not a string. *)
Theorem malformed_index_raises (fs : filesystem) (path : string)
    (content : list byte) :
  fs path = Some Dir ->
  fs (os_path_join path SAFE_WEIGHTS_NAME) = None ->
  fs (os_path_join path SAFE_WEIGHTS_INDEX_NAME) = Some (File content) ->
  (json_scan_text content = None -> resolve fs path = Raise JSONDecodeError) /\
  (forall index members,
     json_scan_text content = Some index ->
     dictify index = JObj members ->
     dict_get string_dec "weight_map" members = None ->
     resolve fs path = Raise (KeyError "weight_map")) /\
  (forall weight_map,
     weight_map_of fs path weight_map ->
     forallb (fun kv => is_str (snd kv)) weight_map = false ->
     resolve fs path = Raise TypeError).
Proof.
  intros Hd Hs Hi.
  pose proof (isfile_dir _ _ Hd) as H1. pose proof (exists_none _ _ Hs) as H2.
  assert (H3 : os_path_exists fs (os_path_join path SAFE_WEIGHTS_INDEX_NAME) = true)
    by (unfold os_path_exists; now rewrite Hi).
  split; [|split].
  - intros Hj. rewrite weights_of_index by assumption.
    unfold open_file, json_load. rewrite Hi. cbn [bind]. now rewrite Hj.
  - intros index members Hj Hm Hk. rewrite weights_of_index by assumption.
    unfold open_file, json_load, getitem. rewrite Hi. cbn [bind].
    rewrite Hj. cbn [bind]. rewrite Hm, Hk. reflexivity.
  - intros wm Hw Hstr.
    rewrite (resolve_index _ _ _ _ _ fs path wm H1 H2 Hw).
    now apply join_all_not_str.
Qed.

Lemma joined_all_str (path : string) (d : dict string json) :
  forallb (fun kv => is_str (snd kv)) d = true ->
  forallb (fun kv => is_str (snd kv))
    (map (fun kv => (fst kv, joined path (snd kv))) d) = true.
Proof.
  induction d as [|[k v] d IH]; cbn [forallb map fst snd]; [reflexivity|].
  intros H. apply andb_prop in H as [Hv Hd]. rewrite (IH Hd), andb_true_r.
  now destruct v.
Qed.

Lemma index_branch_weight_map (fs : filesystem) (path : string)
    (m : dict string json) :
  resolve fs path = Ok m ->
  os_path_isfile fs path = false ->
  os_path_exists fs (os_path_join path SAFE_WEIGHTS_NAME) = false ->
  exists weight_map, weight_map_of fs path weight_map /\ dict_wf weight_map.
Proof.
  intros H H1 H2.
  destruct (os_path_exists fs (os_path_join path SAFE_WEIGHTS_INDEX_NAME))
    eqn:H3; [|rewrite weights_of_missing in H by assumption; discriminate].
  rewrite weights_of_index in H by assumption.
  unfold open_file, json_load in H.
  destruct (fs (os_path_join path SAFE_WEIGHTS_INDEX_NAME))
    as [[content|]|] eqn:Ef; cbn [bind] in H; try discriminate.
  destruct (json_scan_text content) as [index|] eqn:Ej; cbn [bind] in H;
    try discriminate.
  destruct (getitem (dictify index) "weight_map") as [v| |] eqn:Eg;
    cbn [bind] in H; try discriminate.
  destruct v as [| | | | |wm]; cbn [as_dict bind] in H; try discriminate.
  assert (Hw : weight_map_of fs path wm)
    by (exists content, index; repeat split; assumption).
  exists wm. split; [exact Hw|].
  exact (index_weight_map_wf json_scan_text SAFE_WEIGHTS_INDEX_NAME fs path wm Hw).
Qed.

(** X16. Whatever branch produced it, a resolved mapping has pairwise
    distinct names and sends each of them to a string. *)
Theorem resolved_mapping_invariant (fs : filesystem) (path : string)
    (m : dict string json) :
  resolve fs path = Ok m ->
  dict_wf m /\
  forall name location,
    dict_get string_dec name m = Some location -> exists f, location = JStr f.
Proof.
  intros H. split; [now apply get_weight_mappings_wf in H|].
  assert (G : forallb (fun kv => is_str (snd kv)) m = true).
  { destruct (os_path_isfile fs path) eqn:H1.
    { rewrite weights_of_file in H by assumption.
      apply single_file_shape in H as (d & _ & ->). apply located_all_str. }
    destruct (os_path_exists fs (os_path_join path SAFE_WEIGHTS_NAME)) eqn:H2.
    { rewrite weights_of_canonical in H by assumption.
      destruct (single_file py json_scan_bytes fs _ SAFE_WEIGHTS_NAME)
        as [h| |] eqn:E; cbn [bind] in H; try discriminate.
      apply single_file_shape in E as (d & Hwf & ->).
      rewrite join_located in H by now apply dict_pop_wf.
      injection H as <-. apply located_all_str. }
    destruct (os_path_exists fs (os_path_join path SAFE_WEIGHTS_INDEX_NAME))
      eqn:H3; [|rewrite weights_of_missing in H by assumption; discriminate].
    destruct (index_branch_weight_map fs path m H H1 H2) as (wm & Hw & Hwf).
    rewrite (resolve_index _ _ _ _ _ fs path wm H1 H2 Hw) in H.
    destruct (forallb (fun kv => is_str (snd kv)) wm) eqn:Es;
      [|rewrite join_all_not_str in H by assumption; discriminate].
    rewrite join_all_map in H by assumption.
    injection H as <-. now apply joined_all_str. }
  intros name location Hg. apply dict_get_in in Hg.
  rewrite forallb_forall in G. specialize (G _ Hg). cbn [snd] in G.
  destruct location; try discriminate. eauto.
Qed.
End ResolverMore.

Lemma filter_keys_wf {V : Type} (f : string * V -> bool) (d : dict string V) :
  dict_wf d -> dict_wf (filter f d).
Proof.
  unfold dict_wf, dict_keys.
  induction d as [|kv d IH]; cbn [filter map]; [auto|].
  intros H. inversion H as [|? ? Hk Hd]; subst.
  destruct (f kv); [|auto]. cbn [map]. constructor; [|auto].
  intros Hin. apply Hk. apply in_map_iff in Hin as (x & <- & Hx).
  apply filter_In in Hx as [Hx _]. now apply in_map.
Qed.

Section ResolverEdges.
Variable py : interpreter.
Variable json_scan_bytes : list byte -> option json.
Variable json_scan_text : list byte -> option json.
Variable SAFE_WEIGHTS_NAME : string.
Variable SAFE_WEIGHTS_INDEX_NAME : string.

Local Open Scope list_scope.

#[local] Abbreviation resolve :=
  (get_weight_mappings py json_scan_bytes json_scan_text
     SAFE_WEIGHTS_NAME SAFE_WEIGHTS_INDEX_NAME).
#[local] Abbreviation weight_map_of :=
  (index_weight_map json_scan_text SAFE_WEIGHTS_INDEX_NAME).

(** X17. The resolver asks whether the single-shard file and the index
    exist, not whether they are files: when the entry with the name of
    the single-shard file is a directory it raises [IsADirectoryError],
    index or no index, and the same when the entry with the name of the
    index is a directory and there is no single-shard file. *)
Theorem directory_entry_raises (fs : filesystem) (path : string) :
  os_path_isfile fs path = false ->
  (fs (os_path_join path SAFE_WEIGHTS_NAME) = Some Dir ->
   resolve fs path = Raise IsADirectoryError) /\
  (fs (os_path_join path SAFE_WEIGHTS_NAME) = None ->
   fs (os_path_join path SAFE_WEIGHTS_INDEX_NAME) = Some Dir ->
   resolve fs path = Raise IsADirectoryError).
Proof.
  intros H1. split.
  - intros Hs. rewrite weights_of_canonical;
      [|exact H1 | unfold os_path_exists; now rewrite Hs].
    unfold single_file, get_safetensors_header, open_file. now rewrite Hs.
  - intros Hs Hi. rewrite weights_of_index;
      [|exact H1 | now apply exists_none | unfold os_path_exists; now rewrite Hi].
    unfold open_file. now rewrite Hi.
Qed.

(** X18. Where a name of the index ends up: a file name that starts with
    a slash is returned as it is, outside the directory; any other file
    name is put after the directory and one slash, the directory being
    written without a final slash. *)
Theorem shard_location (fs : filesystem) (path : string)
    (weight_map m : dict string json) (name f : string) :
  fs path = Some Dir ->
  fs (os_path_join path SAFE_WEIGHTS_NAME) = None ->
  weight_map_of fs path weight_map ->
  resolve fs path = Ok m ->
  dict_get string_dec name weight_map = Some (JStr f) ->
  (forall rest, f = String "/" rest ->
     dict_get string_dec name m = Some (JStr f)) /\
  (path <> EmptyString -> ends_with_sep path = false ->
   (forall rest, f <> String "/" rest) ->
   dict_get string_dec name m = Some (JStr (path ++ "/" ++ f)%string)).
Proof.
  intros Hd Hs Hw H Hn.
  rewrite (resolve_index _ _ _ _ _ fs path weight_map (isfile_dir _ _ Hd)
             (exists_none _ _ Hs) Hw) in H.
  destruct (forallb (fun kv => is_str (snd kv)) weight_map) eqn:Es;
    [|rewrite join_all_not_str in H by assumption; discriminate].
  rewrite join_all_map in H;
    [|exact (index_weight_map_wf _ _ fs path weight_map Hw) | exact Es].
  injection H as <-. rewrite dict_get_map, Hn. cbn [option_map joined].
  split.
  - intros rest ->. reflexivity.
  - intros Hp He Hf. now rewrite os_path_join_slash.
Qed.

Lemma fold_filter_set (wm acc : dict string json) :
  fold_left
    (fun mapping entry =>
       let '(weight_name, safe_path) := entry in
       if is_quantization_param weight_name
       then dict_set string_dec weight_name safe_path mapping
       else mapping)
    wm acc =
  fold_left (fun d kv => dict_set string_dec (fst kv) (snd kv) d)
    (filter (fun kv => is_quantization_param (fst kv)) wm) acc.
Proof.
  revert acc; induction wm as [|[k v] wm IH]; intros acc;
    cbn [fold_left filter fst]; [reflexivity|].
  destruct (is_quantization_param k); cbn [fold_left fst snd]; apply IH.
Qed.

(** X19. The quantization parameters of a model are its resolved mapping
    restricted to the names that [is_quantization_param] accepts, in the
    same order and with the same locations; a failure to resolve is
    passed on. *)
Theorem quantization_mapping_is_filter (fs : filesystem) (model_path : string) :
  (forall weight_mappings,
     resolve fs model_path = Ok weight_mappings ->
     get_quantization_parameter_to_path_mapping py json_scan_bytes json_scan_text
       SAFE_WEIGHTS_NAME SAFE_WEIGHTS_INDEX_NAME fs model_path =
     Ok (filter (fun kv => is_quantization_param (fst kv)) weight_mappings)) /\
  (forall e,
     resolve fs model_path = Raise e ->
     get_quantization_parameter_to_path_mapping py json_scan_bytes json_scan_text
       SAFE_WEIGHTS_NAME SAFE_WEIGHTS_INDEX_NAME fs model_path = Raise e).
Proof.
  unfold get_quantization_parameter_to_path_mapping. split.
  - intros wm H. rewrite H. cbn [bind]. f_equal.
    rewrite fold_filter_set.
    apply (fold_set_fresh string_dec _ []). cbn [app].
    apply filter_keys_wf. now apply get_weight_mappings_wf in H.
  - intros e H. now rewrite H.
Qed.
End ResolverEdges.

Lemma single_file_mapping_witness :
  example_weights single_fs "ckpt/model.safetensors" =
  Ok [("w", JStr "ckpt/model.safetensors")]%list.
Proof.
  refine (proj1 (single_file_mapping cpython json_scan_ascii json_scan_ascii
            WEIGHTS WEIGHTS_INDEX single_fs "ckpt/model.safetensors" eq_refl)
            [("w", JObj [("dtype", JStr "F32"); ("shape", JArr [JNum "1"]);
                         ("data_offsets", JArr [JNum "0"; JNum "4"])]);
             ("__metadata__", JObj [("format", JStr "pt")])]%list _).
  vm_compute. reflexivity.
Defined.

(** An index without weight map. *)
Definition bare_index_fs : filesystem :=
  fun p =>
    if String.eqb p "ckpt" then Some Dir
    else if String.eqb p "ckpt/model.safetensors.index.json"
    then Some (File (text_bytes (dq "{'metadata': {'total_size': 12}}")))
    else None.

Lemma malformed_index_raises_witness :
  example_weights bare_index_fs "ckpt" = Raise (KeyError "weight_map").
Proof.
  refine (proj1 (proj2 (malformed_index_raises cpython json_scan_ascii json_scan_ascii
           WEIGHTS WEIGHTS_INDEX bare_index_fs "ckpt" _ eq_refl eq_refl eq_refl))
           (JObj [("metadata", JObj [("total_size", JNum "12")])]%list) _ _ _ _);
    vm_compute; reflexivity.
Defined.

Lemma resolved_mapping_invariant_witness :
  dict_wf [("a", JStr "ckpt/f1"); ("b", JStr "ckpt/f1"); ("c", JStr "ckpt/f2")]%list /\
  forall name location,
    dict_get string_dec name
      [("a", JStr "ckpt/f1"); ("b", JStr "ckpt/f1"); ("c", JStr "ckpt/f2")]%list =
      Some location ->
    exists f, location = JStr f.
Proof.
  apply (resolved_mapping_invariant cpython json_scan_ascii json_scan_ascii
           WEIGHTS WEIGHTS_INDEX sharded_fs "ckpt").
  vm_compute. reflexivity.
Defined.

(** A directory in which the name of the single-shard file is taken by a
    directory. *)
Definition nested_dir_fs : filesystem :=
  fun p =>
    if String.eqb p "ckpt" then Some Dir
    else if String.eqb p "ckpt/model.safetensors" then Some Dir
    else if String.eqb p "ckpt/model.safetensors.index.json"
    then Some (File (text_bytes sharded_index))
    else None.

Lemma directory_entry_raises_witness :
  example_weights nested_dir_fs "ckpt" = Raise IsADirectoryError.
Proof.
  apply (proj1 (directory_entry_raises cpython json_scan_ascii json_scan_ascii
           WEIGHTS WEIGHTS_INDEX nested_dir_fs "ckpt" eq_refl)).
  reflexivity.
Defined.

(** An index that names a file by an absolute path. *)
Definition absolute_fs : filesystem :=
  fun p =>
    if String.eqb p "ckpt" then Some Dir
    else if String.eqb p "ckpt/model.safetensors.index.json"
    then Some (File (text_bytes
           (dq "{'weight_map': {'a': '/etc/f1', 'b': 'f2'}}")))
    else None.

Lemma absolute_weight_map :
  index_weight_map json_scan_ascii WEIGHTS_INDEX absolute_fs "ckpt"
    [("a", JStr "/etc/f1"); ("b", JStr "f2")]%list.
Proof.
  exists (text_bytes (dq "{'weight_map': {'a': '/etc/f1', 'b': 'f2'}}")).
  exists (JObj [("weight_map",
                 JObj [("a", JStr "/etc/f1"); ("b", JStr "f2")])]%list).
  repeat split; vm_compute; reflexivity.
Defined.

Lemma shard_location_witness :
  (forall rest, "/etc/f1" = String "/" rest ->
     dict_get string_dec "a"
       [("a", JStr "/etc/f1"); ("b", JStr "ckpt/f2")]%list =
     Some (JStr "/etc/f1")) /\
  ("ckpt" <> EmptyString -> ends_with_sep "ckpt" = false ->
   (forall rest, "/etc/f1" <> String "/" rest) ->
   dict_get string_dec "a"
     [("a", JStr "/etc/f1"); ("b", JStr "ckpt/f2")]%list =
   Some (JStr ("ckpt" ++ "/" ++ "/etc/f1")%string)).
Proof.
  apply (shard_location cpython json_scan_ascii json_scan_ascii WEIGHTS WEIGHTS_INDEX
           absolute_fs "ckpt" [("a", JStr "/etc/f1"); ("b", JStr "f2")]%list
           _ "a" "/etc/f1" eq_refl eq_refl absolute_weight_map).
  - vm_compute. reflexivity.
  - reflexivity.
Defined.

(** An index with quantization parameters. *)
Definition quantized_fs : filesystem :=
  fun p =>
    if String.eqb p "ckpt" then Some Dir
    else if String.eqb p "ckpt/model.safetensors.index.json"
    then Some (File (text_bytes
           (dq "{'weight_map': {'l.weight': 'f1', 'l.weight_scale': 'f1', 'l.bias': 'f2', 'l.weight_zero_point': 'f2'}}")))
    else None.

Lemma quantization_mapping_is_filter_witness :
  get_quantization_parameter_to_path_mapping cpython json_scan_ascii json_scan_ascii
    WEIGHTS WEIGHTS_INDEX quantized_fs "ckpt" =
  Ok [("l.weight_scale", JStr "ckpt/f1");
      ("l.weight_zero_point", JStr "ckpt/f2")]%list.
Proof.
  apply (proj1 (quantization_mapping_is_filter cpython json_scan_ascii json_scan_ascii
           WEIGHTS WEIGHTS_INDEX quantized_fs "ckpt")
           [("l.weight", JStr "ckpt/f1"); ("l.weight_scale", JStr "ckpt/f1");
            ("l.bias", JStr "ckpt/f2");
            ("l.weight_zero_point", JStr "ckpt/f2")]%list).
  vm_compute. reflexivity.
Defined.

(** ** Quantization parameters *)

Lemma string_drop_add (a b : string) (n : nat) :
  string_drop (String.length a + n) (a ++ b) = string_drop n b.
Proof. induction a as [|c a IH]; [reflexivity | exact IH]. Qed.

Lemma ends_with_app_le (a b c : string) :
  String.length c <= String.length b ->
  ends_with (a ++ b) c = ends_with b c.
Proof.
  intros H. unfold ends_with. rewrite length_append.
  replace (String.length a + String.length b - String.length c)
    with (String.length a + (String.length b - String.length c)) by lia.
  rewrite string_drop_add.
  destruct (Nat.leb_spec (String.length c) (String.length a + String.length b));
    destruct (Nat.leb_spec (String.length c) (String.length b));
    try lia; reflexivity.
Qed.

Lemma ends_with_spec (x c : string) :
  ends_with x c = true <-> exists a, x = (a ++ c)%string.
Proof.
  unfold ends_with. split.
  - intros H. apply andb_prop in H as [_ H]. apply String.eqb_eq in H.
    exists (string_take (String.length x - String.length c) x).
    transitivity (string_take (String.length x - String.length c) x ++
                  string_drop (String.length x - String.length c) x)%string;
      [symmetry; apply take_drop | now rewrite H].
  - intros [a ->]. rewrite length_append.
    replace (String.length a + String.length c - String.length c)
      with (String.length a) by lia.
    rewrite string_drop_append, String.eqb_refl, andb_true_r.
    apply Nat.leb_le. lia.
Qed.

Lemma ends_with_shorter (x c1 c2 : string) :
  ends_with x (c1 ++ c2) = true -> ends_with x c2 = true.
Proof.
  rewrite !ends_with_spec. intros [a ->]. exists (a ++ c1)%string.
  now rewrite append_assoc.
Qed.

(** X20. Whatever comes before them, the endings [_scale], [zero_point]
    and [g_idx] make a name a quantization parameter, with or without a
    dot before them, while a name merged with [weight] or with [bias] is
    never one. *)
Theorem quantization_param_endings (prefix : string) :
  is_quantization_param (prefix ++ "_scale") = true /\
  is_quantization_param (prefix ++ "zero_point") = true /\
  is_quantization_param (prefix ++ "g_idx") = true /\
  is_quantization_param (merge_names prefix "weight") = false /\
  is_quantization_param (merge_names prefix "bias") = false.
Proof.
  assert (Hend : forall c, ends_with (prefix ++ c) c = true)
    by (intros c; apply ends_with_spec; eauto).
  unfold is_quantization_param, merge_names. repeat split.
  - now rewrite Hend.
  - rewrite (Hend "zero_point").
    now destruct (ends_with (prefix ++ "zero_point") "_scale").
  - rewrite (Hend "g_idx").
    now destruct (ends_with (prefix ++ "g_idx") "_scale"),
                 (ends_with (prefix ++ "g_idx") "zero_point").
  - rewrite (ends_with_app_le prefix ("." ++ "weight") "_scale") by (cbn; lia).
    rewrite (ends_with_app_le prefix ("." ++ "weight") "g_idx") by (cbn; lia).
    destruct (ends_with (prefix ++ "." ++ "weight") "zero_point") eqn:E;
      [|reflexivity].
    apply (ends_with_shorter _ "zero_po" "int") in E.
    rewrite (ends_with_app_le prefix ("." ++ "weight") "int") in E by (cbn; lia).
    discriminate E.
  - rewrite (ends_with_app_le prefix ("." ++ "bias") "g_idx") by (cbn; lia).
    destruct (ends_with (prefix ++ "." ++ "bias") "_scale") eqn:E1.
    { apply (ends_with_shorter _ "_sca" "le") in E1.
      rewrite (ends_with_app_le prefix ("." ++ "bias") "le") in E1 by (cbn; lia).
      discriminate E1. }
    destruct (ends_with (prefix ++ "." ++ "bias") "zero_point") eqn:E2;
      [|reflexivity].
    apply (ends_with_shorter _ "zero_po" "int") in E2.
    rewrite (ends_with_app_le prefix ("." ++ "bias") "int") in E2 by (cbn; lia).
    discriminate E2.
Qed.

(** ** The folder of a model *)

Lemma has_sep_app (a b : string) : has_sep (a ++ b) = has_sep a || has_sep b.
Proof.
  induction a as [|c a IH]; cbn [has_sep append]; [reflexivity|].
  now rewrite IH, orb_assoc.
Qed.

Lemma split_at_last_sep_join (a name : string) :
  has_sep name = false ->
  split_at_last_sep (a ++ String "/" name) = ((a ++ "/")%string, name).
Proof.
  intros Hn. induction a as [|c a IH].
  - cbn [append split_at_last_sep]. now rewrite Hn.
  - change (String c a ++ String "/" name)%string
      with (String c (a ++ String "/" name)).
    cbn [split_at_last_sep]. rewrite has_sep_app. cbn [has_sep].
    rewrite Ascii.eqb_refl, orb_true_r. cbn [orb]. now rewrite IH.
Qed.

Lemma all_sep_snoc (a : string) : all_sep (a ++ "/") = all_sep a.
Proof.
  induction a as [|c a IH]; [reflexivity|].
  cbn [append all_sep]. now rewrite IH.
Qed.

Lemma rstrip_sep_snoc (a : string) : rstrip_sep (a ++ "/") = rstrip_sep a.
Proof.
  induction a as [|c a IH]; [reflexivity|].
  cbn [append rstrip_sep]. now rewrite IH.
Qed.

Lemma rstrip_sep_id (a : string) :
  a <> EmptyString -> ends_with_sep a = false ->
  rstrip_sep a = a /\ all_sep a = false.
Proof.
  induction a as [|c a IH]; intros Hne He; [now elim Hne|].
  destruct a as [|d a].
  - cbn in *. rewrite He. now split.
  - change (ends_with_sep (String c (String d a)))
      with (ends_with_sep (String d a)) in He.
    destruct IH as [Hr Ha]; [discriminate | exact He |].
    cbn [rstrip_sep all_sep] in *. rewrite Hr, Ha.
    split; [reflexivity | apply andb_false_r].
Qed.

Lemma os_path_split_join (folder name : string) :
  folder <> EmptyString -> ends_with_sep folder = false ->
  has_sep name = false ->
  os_path_split (os_path_join folder name) = (folder, name).
Proof.
  intros Hne He Hn.
  rewrite os_path_join_slash; try assumption.
  - unfold os_path_split.
    change (folder ++ "/" ++ name)%string with (folder ++ String "/" name)%string.
    rewrite split_at_last_sep_join by assumption.
    destruct (rstrip_sep_id folder Hne He) as [Hr Ha].
    rewrite all_sep_snoc, Ha, rstrip_sep_snoc, Hr.
    destruct folder; [now elim Hne | reflexivity].
  - intros rest ->. cbn in Hn. discriminate.
Qed.

Section FolderFacts.
Variable cached_file : string -> string -> option string -> result (option string).
Variable os_path_abspath : string -> string.
Variable SAFE_WEIGHTS_NAME : string.
Variable SAFE_WEIGHTS_INDEX_NAME : string.

#[local] Abbreviation folder_of :=
  (get_safetensors_folder cached_file os_path_abspath
     SAFE_WEIGHTS_NAME SAFE_WEIGHTS_INDEX_NAME).

(** X21. For a name that is no local path, when the cache holds the
    single-shard file of the model in a folder, that folder is returned,
    whatever the cache says of the index; when it holds only the index,
    the folder of the index is returned. The folder is written without a
    final slash and the file names have no slash. *)
Theorem folder_of_cached_file (fs : filesystem) (name : string)
    (cache_dir : option string) (folder : string) :
  os_path_exists fs name = false ->
  folder <> EmptyString -> ends_with_sep folder = false ->
  (has_sep SAFE_WEIGHTS_NAME = false ->
   cached_file name SAFE_WEIGHTS_NAME cache_dir =
     Ok (Some (os_path_join folder SAFE_WEIGHTS_NAME)) ->
   forall r, cached_file name SAFE_WEIGHTS_INDEX_NAME cache_dir = Ok r ->
   folder_of fs name cache_dir = Ok folder) /\
  (has_sep SAFE_WEIGHTS_INDEX_NAME = false ->
   cached_file name SAFE_WEIGHTS_NAME cache_dir = Ok None ->
   cached_file name SAFE_WEIGHTS_INDEX_NAME cache_dir =
     Ok (Some (os_path_join folder SAFE_WEIGHTS_INDEX_NAME)) ->
   folder_of fs name cache_dir = Ok folder).
Proof.
  intros He Hne Hs. unfold get_safetensors_folder. rewrite He. split.
  - intros Hn H1 r H2. rewrite H1, H2. cbn [bind].
    now rewrite os_path_split_join.
  - intros Hn H1 H2. rewrite H1, H2. cbn [bind].
    now rewrite os_path_split_join.
Qed.

(** X22. The other outcomes of locating the folder. A name that is a
    local path is answered from the path alone, the cache not being asked.
    Otherwise both files are asked of the cache before either answer is
    used: a failure of the second lookup is raised even when the first
    found the single-shard file; and when the cache has neither file a
    [ValueError] is raised. *)
Theorem folder_outcomes (fs : filesystem) (name : string)
    (cache_dir : option string) :
  (os_path_exists fs name = true ->
   forall other_cache,
     get_safetensors_folder other_cache os_path_abspath
       SAFE_WEIGHTS_NAME SAFE_WEIGHTS_INDEX_NAME fs name cache_dir =
     Ok (os_path_abspath name)) /\
  (os_path_exists fs name = false ->
   forall r e,
     cached_file name SAFE_WEIGHTS_NAME cache_dir = Ok r ->
     cached_file name SAFE_WEIGHTS_INDEX_NAME cache_dir = Raise e ->
     folder_of fs name cache_dir = Raise e) /\
  (os_path_exists fs name = false ->
   cached_file name SAFE_WEIGHTS_NAME cache_dir = Ok None ->
   cached_file name SAFE_WEIGHTS_INDEX_NAME cache_dir = Ok None ->
   folder_of fs name cache_dir =
   Raise (ValueError
            ("Could not locate safetensors weight or index file from "
             ++ name ++ ".")%string)).
Proof.
  unfold get_safetensors_folder. split; [|split].
  - intros He other. now rewrite He.
  - intros He r e H1 H2. now rewrite He, H1, H2.
  - intros He H1 H2. now rewrite He, H1, H2.
Qed.
End FolderFacts.

(** A cache that holds the single-shard file of one model. *)
Definition example_cache (name filename : string) (cache_dir : option string)
    : result (option string) :=
  if String.eqb name "org/model" && String.eqb filename WEIGHTS
  then Ok (Some (os_path_join "/cache/org--model/snap" WEIGHTS))
  else Ok None.

Lemma folder_of_cached_file_witness :
  get_safetensors_folder example_cache (fun p => p) WEIGHTS WEIGHTS_INDEX
    empty_fs "org/model" None = Ok "/cache/org--model/snap".
Proof.
  refine (proj1 (folder_of_cached_file example_cache (fun p => p)
            WEIGHTS WEIGHTS_INDEX empty_fs "org/model" None
            "/cache/org--model/snap" eq_refl _ eq_refl) eq_refl eq_refl None eq_refl).
  discriminate.
Defined.

Lemma folder_outcomes_witness :
  get_safetensors_folder example_cache (fun p => p) WEIGHTS WEIGHTS_INDEX
    empty_fs "org/other" None =
  Raise (ValueError
           "Could not locate safetensors weight or index file from org/other.").
Proof.
  apply (proj2 (proj2 (folder_outcomes example_cache (fun p => p)
           WEIGHTS WEIGHTS_INDEX empty_fs "org/other" None)));
    reflexivity.
Defined.
